(** * MsGraphBatchProcessor: a shallow embedding of [src/main.ts]

    The class splits a list of items into groups, posts each group to the
    Graph [$batch] endpoint, retries a group that was rate limited and sorts
    the sub-responses into a success list and a failure list.

    Conventions of the embedding.
    - JavaScript numbers that the code uses as counts, indices, attempt
      numbers, status codes and whole seconds are integers ([Z]); [NaN] is
      a separate value where the code can produce it ([JsNum]).
    - A value that may be [undefined] is an [option]; [None] is [undefined].
    - Effects (the id generator, the calls to the endpoint, the timers and
      the logger) are threaded through an explicit [World]. *)

From Equations Require Import Equations.
From Stdlib Require Import String Ascii ZArith List Bool Lia Permutation.
From Stdlib Require Import DecimalString DecimalNat.
Import ListNotations.

Local Open Scope Z_scope.

Set Implicit Arguments.

(** ** JavaScript primitives used by the class *)

Module Js.

(** Errors that the runtime raises by itself. *)
Inductive Error : Type :=
| ReferenceError (message : string)
| TypeError (message : string).

(** How a call ends: with a value, with an exception, or not at all. *)
Inductive Completion (A : Type) : Type :=
| Returns (a : A)
| Throws (e : Error)
| Diverges.
Arguments Throws {A} e.
Arguments Diverges {A}.

(** [a ?? b] *)
Definition nullish {A} (a : option A) (b : option A) : option A :=
  match a with
  | Some _ => a
  | None => b
  end.

(** The result of [Number(...)]: a whole number or [NaN]. *)
Inductive JsNum : Type :=
| NaN
| Fin (z : Z).

(** [x || d] for a number [x]: [NaN] and [0] are falsy. *)
Definition numOr (x : JsNum) (d : Z) : Z :=
  match x with
  | NaN => d
  | Fin z => if z =? 0 then d else z
  end.

(** [s || d] for a string that may be [undefined]: [undefined] and the
    empty string are falsy. *)
Definition strOr (s : option string) (d : string) : string :=
  match s with
  | None => d
  | Some EmptyString => d
  | Some m => m
  end.

(** Template rendering of an integer, [`${n}`]. *)
Definition showZ (n : Z) : string := NilZero.string_of_int (Z.to_int n).

(** [Array.prototype.slice]: a negative bound counts from the end, both
    bounds are clamped to the array, an empty range gives [[]]. *)
Definition relativeIndex (len k : Z) : Z :=
  if k <? 0 then Z.max (len + k) 0 else Z.min k len.

Definition slice {A} (array : list A) (start end_ : Z) : list A :=
  let len := Z.of_nat (length array) in
  let k := relativeIndex len start in
  let final := relativeIndex len end_ in
  firstn (Z.to_nat (final - k)) (skipn (Z.to_nat k) array).

(** [array[index]]: [undefined] past the end. *)
Definition at_ {A} (array : list A) (index : nat) : option A :=
  nth_error array index.

End Js.

Import Js.

(** ** [chunkArray] *)

Section Chunker.
Context {A : Type}.

(** The [for] loop of [chunkArray]; [fuel] bounds the number of
    iterations, [None] means that the loop is still running when the
    fuel is spent. *)
Fixpoint chunkLoop (fuel : nat) (array : list A) (size i : Z)
         (chunks : list (list A)) : option (list (list A)) :=
  if i <? Z.of_nat (length array) then
    match fuel with
    | O => None
    | S fuel' =>
        chunkLoop fuel' array size (i + size)
                  (chunks ++ [slice array i (i + size)])
    end
  else Some chunks.

(** One iteration per item is more than the loop ever needs when it
    terminates (see [chunkLoop_fuel_enough]); [None] is a loop that does
    not terminate (see [chunkLoop_diverges]). *)
Definition chunkArray (array : list A) (size : Z) : option (list (list A)) :=
  chunkLoop (length array) array size 0 [].

(** The shape the chunker is to produce: groups of exactly [size] items
    that follow one another in the input, the last one holding the
    remainder (one to [size] items); no group for an empty input. *)
Inductive Chunked (size : nat) : list A -> list (list A) -> Prop :=
| Chunked_nil : Chunked size [] []
| Chunked_last (l : list A) :
    l <> [] -> (length l <= size)%nat -> Chunked size l [l]
| Chunked_cons (c l : list A) (cs : list (list A)) :
    length c = size -> l <> [] -> Chunked size l cs ->
    Chunked size (c ++ l) (c :: cs).

End Chunker.

(** ** Data model *)

Inductive Method : Type := GET | POST | PATCH | DELETE.

(** [Omit<BatchRequest<any>, 'id'>], what the caller's builder returns. *)
Module RequestFields.
Record t (Payload : Type) : Type := Build {
  method : Method;
  url : string;
  body : option Payload;
  headers : option (list (string * string));
}.
End RequestFields.

Module BatchRequest.
Record t (Payload : Type) : Type := Build {
  id : string;
  method : Method;
  url : string;
  body : option Payload;
  headers : option (list (string * string));
}.

(** [{ id: i, ...fields }] *)
Definition spread {Payload} (i : string) (f : RequestFields.t Payload) : t Payload :=
  {| id := i;
     method := RequestFields.method f;
     url := RequestFields.url f;
     body := RequestFields.body f;
     headers := RequestFields.headers f |}.

(** The descriptor without its [id]. *)
Definition fields {Payload} (r : t Payload) : RequestFields.t Payload :=
  {| RequestFields.method := method r;
     RequestFields.url := url r;
     RequestFields.body := body r;
     RequestFields.headers := headers r |}.
End BatchRequest.

(** [{ message: string; code: string }] *)
Module ErrorInfo.
Record t : Type := Build { message : string; code : string }.
End ErrorInfo.

(** A response body, [R & { error?: ... }]: an object (hence truthy when
    it is there) that carries the payload and may carry an error. *)
Module Body.
Record t (R : Type) : Type := Build {
  payload : R;
  error : option ErrorInfo.t;
}.
End Body.

Module BatchResponse.
Record t (R : Type) : Type := Build {
  id : string;
  status : Z;
  body : option (Body.t R);
}.
End BatchResponse.

(** The entries of [BatchResult.successful] and [BatchResult.failed].  The
    [request] is read with [originalItems[index]] and is [undefined] when
    the index is past the end of the items. *)
Module Success.
Record t (T R : Type) : Type := Build {
  request : option T;
  response : Body.t R;
}.
End Success.

Module Failure.
Record t (T : Type) : Type := Build {
  request : option T;
  error : string;
}.
End Failure.

Module BatchResult.
Record t (T R : Type) : Type := Build {
  successful : list (Success.t T R);
  failed : list (Failure.t T);
}.
Arguments Build {T R} successful failed.
End BatchResult.

(** The [Headers] of a [GraphError], known by its [get] method, which
    answers [null] ([None]) for a header that is not there. *)
Module Headers.
Record t : Type := Build { get : string -> option string }.
End Headers.

(** What the [catch] clause receives.  [text] is the rendering
    [`${graphError}`]. *)
Module GraphError.
Record t : Type := Build {
  statusCode : option Z;
  headers : option Headers.t;
  text : string;
}.
End GraphError.

(** ** The constructor *)

(** The declared type of [options]: every field is a number. *)
Module Options.
Record t : Type := Build {
  batchSize : Z;
  concurrency : Z;
  maxRetries : Z;
  retryDelay : Z;
  queueInterval : Z;
}.
End Options.

(** The object a caller passes at run time; a field may be missing. *)
Module OptionsObject.
Record t : Type := Build {
  batchSize : option Z;
  concurrency : option Z;
  maxRetries : option Z;
  retryDelay : option Z;
  queueInterval : option Z;
}.

(** [{ ...o }] *)
Definition spread (o : t) : t :=
  {| batchSize := batchSize o;
     concurrency := concurrency o;
     maxRetries := maxRetries o;
     retryDelay := retryDelay o;
     queueInterval := queueInterval o |}.

Definition ofOptions (o : Options.t) : t :=
  {| batchSize := Some (Options.batchSize o);
     concurrency := Some (Options.concurrency o);
     maxRetries := Some (Options.maxRetries o);
     retryDelay := Some (Options.retryDelay o);
     queueInterval := Some (Options.queueInterval o) |}.
End OptionsObject.

Module Constructor.

(** The language level the class is compiled to decides what the
    parameter [options] is while its own default value is computed:
    not yet initialised (ES2015 and later), or [undefined] (ES5, where
    the default becomes [if (options === void 0) { options = ... }]). *)
Inductive Target : Type := ES5 | ES2015.

Inductive Binding (A : Type) : Type :=
| Uninitialized
| Initialized (v : A).
Arguments Uninitialized {A}.

Definition bindingInInitializer (target : Target) : Binding (option OptionsObject.t) :=
  match target with
  | ES5 => Initialized None
  | ES2015 => Uninitialized
  end.

(** [options.retryDelay] *)
Definition readRetryDelay (options : Binding (option OptionsObject.t))
  : Error + option Z :=
  match options with
  | Uninitialized =>
      inl (ReferenceError "Cannot access 'options' before initialization")
  | Initialized None =>
      inl (TypeError "Cannot read properties of undefined (reading 'retryDelay')")
  | Initialized (Some o) => inr (OptionsObject.retryDelay o)
  end.

(** The default value of the parameter [options], lines 40-46. *)
Definition defaultOptions (options : Binding (option OptionsObject.t))
  : Error + OptionsObject.t :=
  match readRetryDelay options with
  | inl e => inl e
  | inr d =>
      inr {| OptionsObject.batchSize := Some 20;
             OptionsObject.concurrency := Some 2;
             OptionsObject.maxRetries := Some 3;
             OptionsObject.retryDelay :=
               nullish (nullish d (Some (0 / 1000))) (Some 30);
             OptionsObject.queueInterval := Some 1000 |}
  end.

(** [new MsGraphBatchProcessor(client, options)]; the result is the
    value of [this.options].  [None] is a call without [options]. *)
Definition constructor (target : Target) (options : option OptionsObject.t)
  : Completion OptionsObject.t :=
  match options with
  | Some o => Returns (OptionsObject.spread o)
  | None =>
      match defaultOptions (bindingInInitializer target) with
      | inl e => Throws e
      | inr o => Returns (OptionsObject.spread o)
      end
  end.

(** The defaults that the comments on the fields document. *)
Definition documentedDefaults : OptionsObject.t :=
  {| OptionsObject.batchSize := Some 20;
     OptionsObject.concurrency := Some 2;
     OptionsObject.maxRetries := Some 3;
     OptionsObject.retryDelay := Some 1000;
     OptionsObject.queueInterval := Some 1000 |}.

End Constructor.

(** ** The world outside the class *)

Section Processor.
Context {T R Payload : Type}.

Local Abbreviation Request := (BatchRequest.t Payload).
Local Abbreviation Response := (BatchResponse.t R).
Local Abbreviation Result := (BatchResult.t T R).

(** How [client.api('/$batch').post({ requests })] settles: with the
    list [response.responses], or with the error that is thrown. *)
Inductive PostOutcome : Type :=
| Resolved (responses : list Response)
| Rejected (error : GraphError.t).

(** The Graph client.  The endpoint is any deterministic service: its
    answer may depend on the request list and on every earlier call. *)
Record Client : Type := {
  post : list (list Request) -> list Request -> PostOutcome;
}.

(** What the class takes from the runtime and from its libraries:
    - [uuid4 n] is the [n]-th identifier that [uuid4()] hands out;
    - [StringToNumber s] is [Number(s)] for a string [s];
    - [newPQueue concurrency interval] is [None] when [new PQueue]
      accepts its options and the error it throws otherwise. *)
Record Runtime : Type := {
  uuid4 : nat -> string;
  StringToNumber : string -> JsNum;
  newPQueue : Z -> Z -> option Error;
}.

Inductive LogEvent : Type :=
| Completed (successes failures : nat)
| RateLimited (retryAfter attempt : Z)
| BatchFailed (error : string)
| FailedResponse (response : Response).

Record World : Type := {
  uuids : nat;                      (* identifiers drawn so far *)
  posted : list (list Request);     (* request lists sent, oldest first *)
  timers : list Z;                  (* delays given to setTimeout, in ms *)
  logged : list LogEvent;           (* log events, oldest first *)
}.

(** State passing *)
Definition M (A : Type) : Type := World -> A * World.

Definition ret {A} (a : A) : M A := fun w => (a, w).

Definition bind {A B} (c : M A) (k : A -> M B) : M B :=
  fun w => let (a, w') := c w in k a w'.

Local Notation "x <- c ;; k" := (bind c (fun x => k))
  (at level 100, c at next level, right associativity).
Local Notation "c ;;; k" := (bind c (fun _ => k))
  (at level 100, right associativity).

Fixpoint mapM {A B} (f : A -> M B) (l : list A) : M (list B) :=
  match l with
  | [] => ret []
  | x :: l' =>
      y <- f x ;;
      ys <- mapM f l' ;;
      ret (y :: ys)
  end.

(** [array.forEach((element, index) => ...)] around a mutable [state] *)
Fixpoint forEach {A St} (callback : St -> A -> nat -> M St)
         (array : list A) (index : nat) (state : St) : M St :=
  match array with
  | [] => ret state
  | x :: array' =>
      state' <- callback state x index ;;
      forEach callback array' (S index) state'
  end.

(** [for (const x of array) await ...] around a mutable [state] *)
Fixpoint forOf {A St} (body : St -> A -> M St)
         (array : list A) (state : St) : M St :=
  match array with
  | [] => ret state
  | x :: array' =>
      state' <- body state x ;;
      forOf body array' state'
  end.

Variable rt : Runtime.
Variable client : Client.
Variable options : Options.t.

Definition freshUuid : M string :=
  fun w => (uuid4 rt (uuids w),
            {| uuids := S (uuids w); posted := posted w;
               timers := timers w; logged := logged w |}).

Definition callPost (requests : list Request) : M PostOutcome :=
  fun w => (post client (posted w) requests,
            {| uuids := uuids w; posted := posted w ++ [requests];
               timers := timers w; logged := logged w |}).

(** [await new Promise((resolve) => setTimeout(resolve, ms))] *)
Definition sleep (ms : Z) : M unit :=
  fun w => (tt,
            {| uuids := uuids w; posted := posted w;
               timers := timers w ++ [ms]; logged := logged w |}).

Definition log (e : LogEvent) : M unit :=
  fun w => (tt,
            {| uuids := uuids w; posted := posted w;
               timers := timers w; logged := logged w ++ [e] |}).

(** ** [processBatchResponse] *)

Definition emptyResult : Result := BatchResult.Build [] [].

Definition pushSuccessful (results : Result) (s : Success.t T R) : Result :=
  BatchResult.Build (BatchResult.successful results ++ [s])
                    (BatchResult.failed results).

Definition pushFailed (results : Result) (f : Failure.t T) : Result :=
  BatchResult.Build (BatchResult.successful results)
                    (BatchResult.failed results ++ [f]).

(** [response.body?.error?.message] *)
Definition embeddedMessage (response : Response) : option string :=
  match BatchResponse.body response with
  | None => None
  | Some b =>
      match Body.error b with
      | None => None
      | Some e => Some (ErrorInfo.message e)
      end
  end.

Definition unknownError (status : Z) : string :=
  ("Unknown error (Status: " ++ showZ status ++ ")")%string.

(** The callback of [responses.forEach], lines 165-180. *)
Definition reconcile (originalItems : list T) (results : Result)
           (response : Response) (index : nat) : M Result :=
  let failure : M Result :=
    log (FailedResponse response) ;;;
    ret (pushFailed results
           {| Failure.request := at_ originalItems index;
              Failure.error :=
                strOr (embeddedMessage response)
                      (unknownError (BatchResponse.status response)) |}) in
  if (200 <=? BatchResponse.status response)
     && (BatchResponse.status response <? 300) then
    match BatchResponse.body response with
    | Some b =>
        ret (pushSuccessful results
               {| Success.request := at_ originalItems index;
                  Success.response := b |})
    | None => failure
    end
  else failure.

Definition processBatchResponse (responses : list Response)
           (originalItems : list T) : M Result :=
  forEach (reconcile originalItems) responses 0%nat emptyResult.

(** ** [processSingleBatchWithRetry] *)

(** [graphError.headers?.get('Retry-After')] *)
Inductive HeaderLookup : Type :=
| undefined
| null
| str (s : string).

Definition retryAfterHeader (graphError : GraphError.t) : HeaderLookup :=
  match GraphError.headers graphError with
  | None => undefined
  | Some h =>
      match Headers.get h "Retry-After" with
      | None => null
      | Some s => str s
      end
  end.

(** [Number(v)] *)
Definition Number (v : HeaderLookup) : JsNum :=
  match v with
  | undefined => NaN
  | null => Fin 0
  | str s => StringToNumber rt s
  end.

(** Lines 124-128: [Number(Number(hint) || this.options.retryDelay)];
    the outer [Number] leaves a number as it is. *)
Definition retryAfter (graphError : GraphError.t) : Z :=
  numOr (Number (retryAfterHeader graphError)) (Options.retryDelay options).

(** [graphError['statusCode'] === 429 && attempt < this.options.maxRetries] *)
Definition shouldRetry (graphError : GraphError.t) (attempt : Z) : bool :=
  match GraphError.statusCode graphError with
  | Some c => c =? 429
  | None => false
  end && (attempt <? Options.maxRetries options).

Definition batchFailedText (graphError : GraphError.t) : string :=
  ("Batch request failed: " ++ GraphError.text graphError)%string.

(** Lines 106-109 *)
Definition buildRequests (requestBuilder : T -> RequestFields.t Payload)
           (items : list T) : M (list Request) :=
  mapM (fun item =>
          i <- freshUuid ;;
          ret (BatchRequest.spread i (requestBuilder item)))
       items.

(** Lines 145-153 *)
Definition failAll (items : list T) (graphError : GraphError.t) : M Result :=
  log (BatchFailed (batchFailedText graphError)) ;;;
  ret (BatchResult.Build []
         (map (fun item =>
                 {| Failure.request := Some item;
                    Failure.error := batchFailedText graphError |})
              items)).

(** Lines 130-135 *)
Definition backOff (graphError : GraphError.t) (attempt : Z) : M unit :=
  log (RateLimited (retryAfter graphError) attempt) ;;;
  sleep (retryAfter graphError * 1000).

Equations? processSingleBatchWithRetry
           (items : list T) (requestBuilder : T -> RequestFields.t Payload)
           (attempt : Z) (w : World) : Result * World
  by wf (Z.to_nat (Options.maxRetries options - attempt)) lt :=
  processSingleBatchWithRetry items requestBuilder attempt w
    with buildRequests requestBuilder items w => {
    | (batchRequests, w1) with callPost batchRequests w1 => {
      | (Resolved responses, w2) := processBatchResponse responses items w2;
      | (Rejected graphError, w2)
          with sumbool_of_bool (shouldRetry graphError attempt) => {
        | left _ :=
            processSingleBatchWithRetry items requestBuilder (attempt + 1)
              (snd (backOff graphError attempt w2));
        | right _ := failAll items graphError w2 } } }.
Proof.
  unfold shouldRetry in e.
  apply andb_true_iff in e. destruct e as [_ e].
  apply Z.ltb_lt in e. lia.
Qed.

(** ** [processBatch] *)

Definition appendResult (results batchResult : Result) : Result :=
  BatchResult.Build
    (BatchResult.successful results ++ BatchResult.successful batchResult)
    (BatchResult.failed results ++ BatchResult.failed batchResult).

(** The task given to [queue.add], lines 80-88.  [await queue.add(task)]
    settles when the task has run to its end, so the loop starts a
    group only after the one before it is done. *)
Definition task (requestBuilder : T -> RequestFields.t Payload)
           (results : Result) (batch : list T) : M Result :=
  batchResult <- processSingleBatchWithRetry batch requestBuilder 1 ;;
  ret (appendResult results batchResult).

Definition processBatch (requests : list T)
           (requestBuilder : T -> RequestFields.t Payload)
           (w : World) : Completion (Result * World) :=
  match chunkArray requests (Options.batchSize options) with
  | None => Diverges
  | Some batches =>
      match newPQueue rt (Options.concurrency options)
                      (Options.queueInterval options) with
      | Some e => Throws e
      | None =>
          Returns
            ((results <- forOf (task requestBuilder) batches emptyResult ;;
              log (Completed (length (BatchResult.successful results))
                             (length (BatchResult.failed results))) ;;;
              ret results) w)
      end
  end.

(** ** Notions used to state the properties *)

(** The items a result accounts for, successes first. *)
Definition requestsOf (r : Result) : list (option T) :=
  map (@Success.request T R) (BatchResult.successful r)
  ++ map (@Failure.request T) (BatchResult.failed r).

(** The request list that [buildRequests] makes when [n] identifiers
    have been drawn before. *)
Fixpoint mkRequests (requestBuilder : T -> RequestFields.t Payload)
         (n : nat) (items : list T) : list Request :=
  match items with
  | [] => []
  | item :: items' =>
      BatchRequest.spread (uuid4 rt n) (requestBuilder item)
      :: mkRequests requestBuilder (S n) items'
  end.

(** The world once the requests of [items] are built and posted. *)
Definition afterPost (requestBuilder : T -> RequestFields.t Payload)
           (items : list T) (w : World) : World :=
  {| uuids := uuids w + length items;
     posted := posted w ++ [mkRequests requestBuilder (uuids w) items];
     timers := timers w;
     logged := logged w |}.

(** The endpoint answers a group with one sub-response per request. *)
Definition OnePerRequest : Prop :=
  forall history requests responses,
    post client history requests = Resolved responses ->
    length responses = length requests.

(** The endpoint rejects every call with status 429. *)
Definition AlwaysRateLimited : Prop :=
  forall history requests,
    exists graphError,
      post client history requests = Rejected graphError
      /\ GraphError.statusCode graphError = Some 429.

(** Groups run one at a time, each one to its end (retries included)
    before the next one starts, in the order of the list. *)
Inductive Sequential (requestBuilder : T -> RequestFields.t Payload)
  : World -> list (list T) -> list Result -> World -> Prop :=
| Sequential_nil w : Sequential requestBuilder w [] [] w
| Sequential_cons w group groups r rs w1 w' :
    processSingleBatchWithRetry group requestBuilder 1 w = (r, w1) ->
    Sequential requestBuilder w1 groups rs w' ->
    Sequential requestBuilder w (group :: groups) (r :: rs) w'.

(** The seconds to wait before a retry, as the specification words
    them: the hint when there is one, [retryDelay] when it is missing or
    not a number, and never less than zero. *)
Definition secondsAsClaimed (hint : HeaderLookup) : Z :=
  match hint with
  | str s =>
      match StringToNumber rt s with
      | Fin n => Z.max 0 n
      | NaN => Z.max 0 (Options.retryDelay options)
      end
  | undefined | null => Z.max 0 (Options.retryDelay options)
  end.

(** The seconds that the code computes: the hint when it reads as a
    number other than zero, [retryDelay] when the hint is missing, not a
    number or zero; whatever their sign, they are not changed. *)
Definition secondsAmended (hint : HeaderLookup) : Z :=
  match hint with
  | str s =>
      match StringToNumber rt s with
      | Fin n => if n =? 0 then Options.retryDelay options else n
      | NaN => Options.retryDelay options
      end
  | undefined | null => Options.retryDelay options
  end.

(** The outcome of one position, as the specification words it. *)
Inductive Outcome : Type :=
| IsSuccess (item : T) (body : Body.t R)
| IsFailure (item : T) (message : string).

Definition inSuccessRange (status : Z) : bool :=
  (200 <=? status) && (status <? 300).

(** "the body's embedded error message if present, else a synthesized
    string containing the status code" *)
Definition messageAsClaimed (response : Response) : string :=
  match embeddedMessage response with
  | Some m => m
  | None => unknownError (BatchResponse.status response)
  end.

(** The same with an empty embedded message counted as no message. *)
Definition messageAmended (response : Response) : string :=
  match embeddedMessage response with
  | Some m => if String.eqb m "" then unknownError (BatchResponse.status response) else m
  | None => unknownError (BatchResponse.status response)
  end.

Definition outcomeWith (message : Response -> string)
           (response : Response) (item : T) : Outcome :=
  match BatchResponse.body response with
  | Some b =>
      if inSuccessRange (BatchResponse.status response)
      then IsSuccess item b
      else IsFailure item (message response)
  | None => IsFailure item (message response)
  end.

Definition outcomesWith (message : Response -> string)
           (responses : list Response) (items : list T) : list Outcome :=
  map (fun p => outcomeWith message (fst p) (snd p)) (combine responses items).

Fixpoint successesOf (os : list Outcome) : list (Success.t T R) :=
  match os with
  | [] => []
  | IsSuccess item b :: os' =>
      {| Success.request := Some item; Success.response := b |} :: successesOf os'
  | IsFailure _ _ :: os' => successesOf os'
  end.

Fixpoint failuresOf (os : list Outcome) : list (Failure.t T) :=
  match os with
  | [] => []
  | IsSuccess _ _ :: os' => failuresOf os'
  | IsFailure item m :: os' =>
      {| Failure.request := Some item; Failure.error := m |} :: failuresOf os'
  end.

Definition resultOf (os : list Outcome) : Result :=
  BatchResult.Build (successesOf os) (failuresOf os).

(** Reconciliation as the specification has it: a length mismatch is an
    error ([None]), not a shorter or a padded result. *)
Definition reconcileAsClaimed (responses : list Response) (items : list T)
  : option Result :=
  if Nat.eqb (length responses) (length items)
  then Some (resultOf (outcomesWith messageAsClaimed responses items))
  else None.

(** The identifiers of the posted requests are those drawn since the
    [k]-th, in the order of the draws. *)
Definition IdsPosted (k : nat) (w : World) : Prop :=
  (k <= uuids w)%nat
  /\ map (@BatchRequest.id Payload) (concat (posted w))
     = map (uuid4 rt) (seq k (uuids w - k)).

End Processor.

(** ** Further notions *)

(** The elements of [l] at the positions where [mask] is [true]. *)
Fixpoint select {A : Type} (mask : list bool) (l : list A) : list A :=
  match mask, l with
  | b :: mask', x :: l' =>
      if b then x :: select mask' l' else select mask' l'
  | _, _ => []
  end.

(** The entry that the callback of [responses.forEach] makes for the
    response at position [index]: a success or a failure that carries
    [originalItems[index]]. *)
Definition outcomeAt {T R : Type} (originalItems : list T)
           (response : BatchResponse.t R) (index : nat)
  : Success.t T R + Failure.t T :=
  match BatchResponse.body response with
  | Some b =>
      if inSuccessRange (BatchResponse.status response)
      then inl {| Success.request := at_ originalItems index;
                  Success.response := b |}
      else inr {| Failure.request := at_ originalItems index;
                  Failure.error := messageAmended response |}
  | None =>
      inr {| Failure.request := at_ originalItems index;
             Failure.error := messageAmended response |}
  end.

(** The entries of the responses, the first one at position [index]. *)
Fixpoint outcomesFrom {T R : Type} (originalItems : list T)
         (responses : list (BatchResponse.t R)) (index : nat)
  : list (Success.t T R + Failure.t T) :=
  match responses with
  | [] => []
  | response :: responses' =>
      outcomeAt originalItems response index
      :: outcomesFrom originalItems responses' (S index)
  end.

(** The item that an entry carries. *)
Definition carried {T R : Type} (o : Success.t T R + Failure.t T) : option T :=
  match o with
  | inl s => Success.request s
  | inr f => Failure.request f
  end.

Fixpoint successesIn {S F : Type} (os : list (S + F)) : list S :=
  match os with
  | [] => []
  | inl s :: os' => s :: successesIn os'
  | inr _ :: os' => successesIn os'
  end.

Fixpoint failuresIn {S F : Type} (os : list (S + F)) : list F :=
  match os with
  | [] => []
  | inl _ :: os' => failuresIn os'
  | inr f :: os' => f :: failuresIn os'
  end.

(** The test of line 166: a status in [200, 300) and a body. *)
Definition succeeds {R : Type} (response : BatchResponse.t R) : bool :=
  inSuccessRange (BatchResponse.status response)
  && match BatchResponse.body response with
     | Some _ => true
     | None => false
     end.

(** ** Concrete collaborators, used to run the code on examples *)

Module Sample.

Definition isDigit (c : ascii) : bool :=
  let n := N_of_ascii c in (48 <=? n)%N && (n <=? 57)%N.

Fixpoint digitsValue (s : string) (acc : Z) : option Z :=
  match s with
  | EmptyString => Some acc
  | String c s' =>
      if isDigit c
      then digitsValue s' (10 * acc + (Z.of_N (N_of_ascii c) - 48))
      else None
  end.

(** [Number(s)] on the strings that the examples use: the empty string
    is [0], a string of decimal digits, with or without a sign, is its
    value, a word is [NaN]. *)
Definition decimalToNumber (s : string) : JsNum :=
  match s with
  | EmptyString => Fin 0
  | String "-" (String c s') =>
      match digitsValue (String c s') 0 with
      | Some z => Fin (- z)
      | None => NaN
      end
  | String "-" EmptyString => NaN
  | _ =>
      match digitsValue s 0 with
      | Some z => Fin z
      | None => NaN
      end
  end.

(** Identifiers that differ from one draw to the next. *)
Definition counterUuid (n : nat) : string :=
  ("uuid-" ++ NilEmpty.string_of_uint (Nat.to_uint n))%string.

(** [new PQueue] takes a concurrency of one or more and an interval of
    zero or more. *)
Definition checkPQueue (concurrency interval : Z) : option Error :=
  if (1 <=? concurrency) && (0 <=? interval) then None
  else Some (TypeError "Expected `concurrency` to be a number from 1 and up").

Definition rt : Runtime :=
  {| uuid4 := counterUuid;
     StringToNumber := decimalToNumber;
     newPQueue := checkPQueue |}.

Definition options (batchSize maxRetries retryDelay : Z) : Options.t :=
  {| Options.batchSize := batchSize;
     Options.concurrency := 2;
     Options.maxRetries := maxRetries;
     Options.retryDelay := retryDelay;
     Options.queueInterval := 1000 |}.

(** Items are numbers, the builder reads the user of that number. *)
Definition builder (item : nat) : RequestFields.t unit :=
  {| RequestFields.method := GET;
     RequestFields.url := ("/users/" ++ NilZero.string_of_uint (Nat.to_uint item))%string;
     RequestFields.body := None;
     RequestFields.headers := None |}.

Definition retryAfterHeaders (hint : string) : Headers.t :=
  {| Headers.get := fun name =>
       if String.eqb name "Retry-After" then Some hint else None |}.

Definition rateLimit (hint : option string) : GraphError.t :=
  {| GraphError.statusCode := Some 429;
     GraphError.headers := option_map retryAfterHeaders hint;
     GraphError.text := "Error: Too Many Requests" |}.

Definition serverError : GraphError.t :=
  {| GraphError.statusCode := Some 500;
     GraphError.headers := None;
     GraphError.text := "Error: Internal Server Error" |}.

Definition okBody : Body.t nat := {| Body.payload := 0%nat; Body.error := None |}.

Definition ok (request : BatchRequest.t unit) : BatchResponse.t nat :=
  {| BatchResponse.id := BatchRequest.id request;
     BatchResponse.status := 200;
     BatchResponse.body := Some okBody |}.

Definition notFound (message : string) : BatchResponse.t nat :=
  {| BatchResponse.id := "1";
     BatchResponse.status := 404;
     BatchResponse.body :=
       Some {| Body.payload := 0%nat;
               Body.error := Some {| ErrorInfo.message := message;
                                     ErrorInfo.code := "NotFound" |} |} |}.

(** An endpoint that answers every request with status 200. *)
Definition allOk : @Client nat unit :=
  {| post := fun _ requests => Resolved (map ok requests) |}.

(** An endpoint that rejects every call with status 429. *)
Definition busy (hint : option string) : @Client nat unit :=
  {| post := fun _ _ => Rejected (rateLimit hint) |}.

(** An endpoint that rejects its first call with status 429 and the given
    hint, and answers every later call with status 200. *)
Definition busyOnce (hint : string) : @Client nat unit :=
  {| post := fun history requests =>
       match history with
       | [] => Rejected (rateLimit (Some hint))
       | _ :: _ => Resolved (map ok requests)
       end |}.

(** An endpoint that rejects every call with status 500. *)
Definition broken : @Client nat unit :=
  {| post := fun _ _ => Rejected serverError |}.

(** An endpoint that finds the first request of every call and none of
    the others. *)
Definition firstOnly : @Client nat unit :=
  {| post := fun _ requests =>
       match requests with
       | [] => Resolved []
       | request :: others =>
           Resolved (ok request :: map (fun _ => notFound "gone") others)
       end |}.

(** An endpoint that answers every call with the same responses. *)
Definition fixed (responses : list (BatchResponse.t nat)) : @Client nat unit :=
  {| post := fun _ _ => Resolved responses |}.

Definition start : @World nat unit :=
  {| uuids := 0; posted := []; timers := []; logged := [] |}.

End Sample.

(** * Properties *)

(** ** The chunker *)

Section ChunkerFacts.
Context {A : Type}.
Implicit Types (array l : list A) (chunks : list (list A)).

Lemma Chunked_of_nil size chunks : Chunked size (@nil A) chunks -> chunks = [].
Proof.
  intros H. remember (@nil A) as l eqn:El.
  destruct H as [ | l Hl _ | c l cs _ Hl _ ]; trivial.
  - congruence.
  - apply app_eq_nil in El. destruct El; congruence.
Qed.

Lemma Chunked_concat size l chunks : Chunked size l chunks -> concat chunks = l.
Proof.
  induction 1; simpl; trivial.
  - apply app_nil_r.
  - now f_equal.
Qed.

Lemma Chunked_size_positive size l chunks :
  Chunked size l chunks -> l <> [] -> (1 <= size)%nat.
Proof.
  induction 1 as [ | l Hl Hs | c l cs Hc Hl Hch IH ]; intros Hne.
  - congruence.
  - destruct l; [congruence | simpl in *; lia].
  - auto.
Qed.

Lemma Chunked_bounds size l chunks :
  Chunked size l chunks ->
  Forall (fun c => 1 <= length c <= size)%nat chunks.
Proof.
  induction 1 as [ | l Hl Hs | c l cs Hc Hl Hch IH ]; constructor; trivial.
  - destruct l; [congruence | simpl in *; lia].
  - pose proof (Chunked_size_positive Hch Hl). lia.
Qed.

Lemma slice_inside array size i :
  0 < size -> 0 <= i ->
  slice array i (i + size) = firstn (Z.to_nat size) (skipn (Z.to_nat i) array).
Proof.
  intros Hs Hi. unfold slice, relativeIndex.
  destruct (Z.ltb_spec i 0); [lia|].
  destruct (Z.ltb_spec (i + size) 0); [lia|].
  set (len := Z.of_nat (length array)).
  destruct (Z_le_gt_dec len i) as [Hle|Hgt].
  - rewrite (skipn_all2 (n := Z.to_nat (Z.min i len))) by (subst len; lia).
    rewrite (skipn_all2 (n := Z.to_nat i)) by (subst len; lia).
    now rewrite !firstn_nil.
  - rewrite (Z.min_l i len) by lia.
    destruct (Z_le_gt_dec (i + size) len).
    + rewrite Z.min_l by lia. f_equal. lia.
    + rewrite Z.min_r by lia.
      rewrite !firstn_all2; trivial; rewrite length_skipn; subst len; lia.
Qed.

Lemma chunkLoop_mono fuel array size i chunks r :
  chunkLoop fuel array size i chunks = Some r ->
  forall fuel', (fuel <= fuel')%nat ->
  chunkLoop fuel' array size i chunks = Some r.
Proof.
  revert i chunks.
  induction fuel as [|fuel IH]; intros i chunks H fuel' Hle.
  - simpl in H. destruct (i <? Z.of_nat (length array)) eqn:E; [discriminate|].
    destruct fuel'; simpl; now rewrite E.
  - simpl in H. destruct fuel' as [|fuel']; [lia|]. simpl.
    destruct (i <? Z.of_nat (length array)); trivial.
    apply IH; [trivial | lia].
Qed.

(** With a positive [size] the loop ends within the fuel and has produced
    the groups of the items from [i] on. *)
Lemma chunkLoop_positive fuel array size i chunks :
  0 < size -> 0 <= i ->
  Z.of_nat (length array) - i <= Z.of_nat fuel ->
  exists rest,
    chunkLoop fuel array size i chunks = Some (chunks ++ rest)
    /\ Chunked (Z.to_nat size) (skipn (Z.to_nat i) array) rest.
Proof.
  intros Hs. revert i chunks.
  induction fuel as [|fuel IH]; intros i chunks Hi Hfuel.
  - exists []. simpl.
    destruct (Z.ltb_spec i (Z.of_nat (length array))); [lia|].
    rewrite app_nil_r, skipn_all2 by lia. split; [trivial | constructor].
  - simpl. destruct (Z.ltb_spec i (Z.of_nat (length array))) as [Hlt|Hge].
    + destruct (IH (i + size) (chunks ++ [slice array i (i + size)]))
        as (rest & Hrun & Hrest); [lia | lia |].
      exists (slice array i (i + size) :: rest).
      rewrite Hrun, <- app_assoc. split; [reflexivity|].
      rewrite slice_inside by lia.
      assert (Hsk : skipn (Z.to_nat (i + size)) array
                    = skipn (Z.to_nat size) (skipn (Z.to_nat i) array)).
      { rewrite skipn_skipn. f_equal. lia. }
      rewrite Hsk in Hrest.
      set (tail := skipn (Z.to_nat i) array) in *.
      assert (Hlen : length tail = (length array - Z.to_nat i)%nat)
        by (subst tail; now rewrite length_skipn).
      destruct (le_gt_dec (length tail) (Z.to_nat size)) as [Hshort|Hlong].
      * rewrite skipn_all2 in Hrest by trivial.
        apply Chunked_of_nil in Hrest. subst rest.
        rewrite firstn_all2 by trivial.
        constructor; [|trivial].
        intros E. rewrite E in Hlen. simpl in Hlen. lia.
      * rewrite <- (firstn_skipn (Z.to_nat size) tail) at 1.
        constructor; trivial.
        -- rewrite length_firstn. lia.
        -- intros E. apply (f_equal (@length A)) in E.
           rewrite length_skipn in E. simpl in E. lia.
    + exists []. rewrite app_nil_r, skipn_all2 by lia.
      split; [trivial | constructor].
Qed.

(** With a [size] of zero or less the index never moves forward: the loop
    is still running whatever the fuel. *)
Lemma chunkLoop_diverges fuel array size i chunks :
  size <= 0 -> i < Z.of_nat (length array) ->
  chunkLoop fuel array size i chunks = None.
Proof.
  intros Hs. revert i chunks.
  induction fuel as [|fuel IH]; intros i chunks Hi; simpl;
    destruct (Z.ltb_spec i (Z.of_nat (length array))); try lia; trivial.
  apply IH. lia.
Qed.

Lemma chunkArray_positive array size :
  0 < size ->
  exists chunks,
    chunkArray array size = Some chunks /\ Chunked (Z.to_nat size) array chunks.
Proof.
  intros Hs.
  destruct (@chunkLoop_positive (length array) array size 0 [] Hs)
    as (rest & Hrun & Hrest); [lia | lia |].
  exists rest. split; trivial.
Qed.

(** The fuel of [chunkArray] is enough: whenever the loop ends at all, it
    ends within it. *)
Lemma chunkLoop_fuel_enough fuel array size r :
  chunkLoop fuel array size 0 [] = Some r -> chunkArray array size = Some r.
Proof.
  intros H. destruct (Z_lt_le_dec 0 size) as [Hs|Hs].
  - destruct (@chunkArray_positive array size Hs) as (chunks & Hc & _).
    rewrite Hc. unfold chunkArray in Hc.
    eapply chunkLoop_mono with (fuel' := Nat.max fuel (length array)) in H;
      [| apply Nat.le_max_l].
    eapply chunkLoop_mono with (fuel' := Nat.max fuel (length array)) in Hc;
      [| apply Nat.le_max_r].
    congruence.
  - destruct array as [|a array].
    + destruct fuel; simpl in H; exact H.
    + rewrite chunkLoop_diverges in H; [discriminate | trivial | simpl; lia].
Qed.

End ChunkerFacts.

(** *** More about the chunker *)

Section ChunkerMore.
Context {A : Type}.
Implicit Types (array l : list A) (chunks : list (list A)).

Lemma Chunked_count size l chunks :
  Chunked size l chunks ->
  (length chunks * size < length l + size
   /\ length l <= length chunks * size)%nat
  \/ (l = [] /\ chunks = []).
Proof.
  induction 1 as [ | l Hl Hs | c l cs Hc Hl Hch IH ].
  - right. auto.
  - left. destruct l; [congruence|]. simpl in *. lia.
  - left. destruct IH as [IH | [E _]]; [|congruence].
    rewrite length_app. simpl length. lia.
Qed.

Lemma chunkArray_ceiling array (size : Z) chunks :
  0 < size ->
  chunkArray array size = Some chunks ->
  Z.of_nat (length chunks) = (Z.of_nat (length array) + size - 1) / size.
Proof.
  intros Hsize Hrun.
  destruct (@chunkArray_positive A array size Hsize) as (chunks' & Hrun' & Hshape).
  assert (chunks' = chunks) by congruence. subst chunks'.
  apply Chunked_count in Hshape.
  destruct Hshape as [[Hlo Hhi] | [-> ->]].
  - apply Z.div_unique with
      (r := Z.of_nat (length array) + size - 1 - size * Z.of_nat (length chunks));
      lia.
  - simpl. symmetry. apply Z.div_small. lia.
Qed.

(** X1.  For a size above zero, the number of groups is the number of
    items divided by the size, rounded up. *)
Theorem chunkArray_count array (size : Z) :
  0 < size ->
  exists chunks,
    chunkArray array size = Some chunks
    /\ Z.of_nat (length chunks) = (Z.of_nat (length array) + size - 1) / size.
Proof.
  intros Hsize.
  destruct (@chunkArray_positive A array size Hsize) as (chunks & Hrun & _).
  exists chunks. split; trivial. now apply chunkArray_ceiling.
Qed.

(** With a size of zero or less and at least one item the loop of
    [chunkArray] does not end, whatever the fuel. *)
Lemma chunkArray_nonpositive array (size : Z) :
  size <= 0 -> array <> [] ->
  chunkArray array size = None
  /\ forall fuel, chunkLoop fuel array size 0 [] = None.
Proof.
  intros Hsize Hne.
  assert (Hlen : 0 < Z.of_nat (length array))
    by (destruct array; [congruence | simpl; lia]).
  split; [unfold chunkArray|intros fuel]; now apply chunkLoop_diverges.
Qed.

(** Whatever the size, what [chunkArray] returns, when it returns, puts
    the items back together, and no group in it is empty or longer than
    the size. *)
Lemma chunkArray_returned array (size : Z) chunks :
  chunkArray array size = Some chunks ->
  concat chunks = array
  /\ Forall (fun c => 1 <= length c <= Z.to_nat size)%nat chunks.
Proof.
  intros Hrun. destruct (Z_lt_le_dec 0 size) as [Hsize|Hsize].
  - destruct (@chunkArray_positive A array size Hsize) as (chunks' & Hrun' & Hshape).
    assert (chunks' = chunks) by congruence. subst chunks'. split.
    + eapply Chunked_concat; eassumption.
    + eapply Chunked_bounds; eassumption.
  - destruct array as [|a array].
    + unfold chunkArray in Hrun. simpl in Hrun. inversion Hrun. auto.
    + destruct (@chunkArray_nonpositive (a :: array) size Hsize) as [E _];
        congruence.
Qed.

End ChunkerMore.

(** ** The processor *)

Section ProcessorFacts.
Context {T R Payload : Type}.
Variable rt : Runtime.
Variable client : @Client R Payload.
Variable options : Options.t.

Local Abbreviation Request := (BatchRequest.t Payload).
Local Abbreviation Response := (BatchResponse.t R).
Local Abbreviation Result := (BatchResult.t T R).
Local Abbreviation World := (@World R Payload).
Local Abbreviation retry := (processSingleBatchWithRetry rt client options).

Implicit Types (items : list T) (w : World) (attempt : Z)
         (requestBuilder : T -> RequestFields.t Payload)
         (responses : list Response) (results : Result).

(** The body of [processSingleBatchWithRetry], as the source has it. *)
Lemma retry_unfold items requestBuilder attempt w :
  retry items requestBuilder attempt w =
  let (batchRequests, w1) := buildRequests rt requestBuilder items w in
  let (outcome, w2) := callPost client batchRequests w1 in
  match outcome with
  | Resolved responses => processBatchResponse responses items w2
  | Rejected graphError =>
      if shouldRetry options graphError attempt
      then retry items requestBuilder (attempt + 1)
             (snd (backOff rt options graphError attempt w2))
      else failAll items graphError w2
  end.
Proof.
  simp processSingleBatchWithRetry.
  destruct (buildRequests rt requestBuilder items w) as [batchRequests w1].
  unfold callPost; simpl.
  destruct (post client (posted w1) batchRequests) as [responses|graphError];
    simpl; trivial.
  destruct (sumbool_of_bool (shouldRetry options graphError attempt)) as [E|E];
    simpl; rewrite E; trivial.
Qed.

(** *** Reconciliation *)

Lemma strOr_amended (response : Response) :
  strOr (embeddedMessage response) (unknownError (BatchResponse.status response))
  = messageAmended response.
Proof.
  unfold messageAmended, strOr.
  destruct (embeddedMessage response) as [[|c m]|]; reflexivity.
Qed.

(** What one call of the [forEach] callback leaves in [results]. *)
Lemma reconcile_result items results (response : Response) index w :
  fst (reconcile items results response index w) =
  match BatchResponse.body response with
  | Some b =>
      if inSuccessRange (BatchResponse.status response)
      then pushSuccessful results
             {| Success.request := at_ items index; Success.response := b |}
      else pushFailed results
             {| Failure.request := at_ items index;
                Failure.error := messageAmended response |}
  | None =>
      pushFailed results
        {| Failure.request := at_ items index;
           Failure.error := messageAmended response |}
  end.
Proof.
  unfold reconcile, inSuccessRange. rewrite strOr_amended.
  destruct ((200 <=? BatchResponse.status response)
            && (BatchResponse.status response <? 300));
    destruct (BatchResponse.body response); reflexivity.
Qed.

(** The callback only writes to the log. *)
Lemma reconcile_world items results (response : Response) index w :
  let w' := snd (reconcile items results response index w) in
  uuids w' = uuids w /\ posted w' = posted w /\ timers w' = timers w.
Proof.
  unfold reconcile.
  destruct ((200 <=? BatchResponse.status response)
            && (BatchResponse.status response <? 300));
    destruct (BatchResponse.body response); simpl; auto.
Qed.

Lemma forEach_reconcile_world items responses index results w :
  let w' := snd (forEach (reconcile items) responses index results w) in
  uuids w' = uuids w /\ posted w' = posted w /\ timers w' = timers w.
Proof.
  revert index results w.
  induction responses as [|response responses IH]; intros index results w;
    simpl; auto.
  unfold bind.
  pose proof (reconcile_world items results response index w) as Hw.
  destruct (reconcile items results response index w) as [results' w1].
  simpl in Hw. destruct Hw as (Hu & Hp & Ht).
  specialize (IH (S index) results' w1). simpl in IH.
  destruct IH as (Hu' & Hp' & Ht'). repeat split; congruence.
Qed.

Lemma processBatchResponse_world responses items w :
  let w' := snd (processBatchResponse responses items w) in
  uuids w' = uuids w /\ posted w' = posted w /\ timers w' = timers w.
Proof. apply forEach_reconcile_world. Qed.

Lemma requestsOf_pushSuccessful results (s : Success.t T R) :
  Permutation (requestsOf (pushSuccessful results s))
              (requestsOf results ++ [Success.request s]).
Proof.
  unfold requestsOf, pushSuccessful. simpl. rewrite map_app. simpl.
  rewrite <- !app_assoc. apply Permutation_app_head, Permutation_app_comm.
Qed.

Lemma requestsOf_pushFailed results (f : Failure.t T) :
  requestsOf (pushFailed results f) = requestsOf results ++ [Failure.request f].
Proof.
  unfold requestsOf, pushFailed. simpl. rewrite map_app. simpl.
  now rewrite app_assoc.
Qed.

Lemma reconcile_requests items results (response : Response) index w :
  Permutation (requestsOf (fst (reconcile items results response index w)))
              (requestsOf results ++ [at_ items index]).
Proof.
  rewrite reconcile_result.
  destruct (BatchResponse.body response);
    [destruct (inSuccessRange (BatchResponse.status response))|].
  - apply requestsOf_pushSuccessful.
  - now rewrite requestsOf_pushFailed.
  - now rewrite requestsOf_pushFailed.
Qed.

(** Whatever the two lengths are, the loop accounts for one position per
    response, reading the item of each position with [originalItems[index]]. *)
Lemma forEach_reconcile_requests items responses index results w :
  Permutation
    (requestsOf (fst (forEach (reconcile items) responses index results w)))
    (requestsOf results ++ map (at_ items) (seq index (length responses))).
Proof.
  revert index results w.
  induction responses as [|response responses IH]; intros index results w; simpl.
  - now rewrite app_nil_r.
  - unfold bind.
    pose proof (reconcile_requests items results response index w) as Hr.
    destruct (reconcile items results response index w) as [results' w1].
    simpl in Hr. rewrite IH, Hr, <- app_assoc. reflexivity.
Qed.

Lemma requestsOf_length results :
  length (requestsOf results)
  = (length (BatchResult.successful results)
     + length (BatchResult.failed results))%nat.
Proof. unfold requestsOf. now rewrite length_app, !length_map. Qed.

Lemma at_all (l : list T) : map (at_ l) (seq 0 (length l)) = map Some l.
Proof.
  induction l as [|x l IH]; simpl; trivial.
  f_equal. rewrite <- seq_shift, map_map. exact IH.
Qed.

Lemma at_skipn (l : list T) k x rest :
  skipn k l = x :: rest -> at_ l k = Some x /\ skipn (S k) l = rest.
Proof.
  revert l. induction k as [|k IH]; intros [|y l] H; simpl in *;
    try discriminate.
  - inversion H. auto.
  - apply IH in H. exact H.
Qed.

Lemma appendResult_empty results : appendResult results emptyResult = results.
Proof.
  destruct results. unfold appendResult, emptyResult. simpl.
  now rewrite !app_nil_r.
Qed.

(** With as many responses as items left, the loop adds the outcomes of
    the positions, in order, to the two lists. *)
Lemma forEach_reconcile_exact items responses index results w :
  length responses = length (skipn index items) ->
  fst (forEach (reconcile items) responses index results w)
  = appendResult results
      (resultOf (outcomesWith messageAmended responses (skipn index items))).
Proof.
  revert index results w.
  induction responses as [|response responses IH]; intros index results w Hlen.
  - simpl. now rewrite appendResult_empty.
  - destruct (skipn index items) as [|item rest] eqn:Esk; [discriminate|].
    destruct (at_skipn _ _ Esk) as [Hat Hrest].
    simpl. unfold bind.
    pose proof (reconcile_result items results response index w) as Hr.
    destruct (reconcile items results response index w) as [results' w1].
    simpl in Hr. rewrite IH by (rewrite Hrest; simpl in Hlen; lia).
    rewrite Hrest, Hr, Hat. unfold resultOf, appendResult, outcomesWith.
    destruct (BatchResponse.body response) eqn:Eb;
      [destruct (inSuccessRange (BatchResponse.status response)) eqn:Er|];
      simpl; unfold outcomeWith; rewrite Eb, ?Er; simpl;
      rewrite <- ?app_assoc; reflexivity.
Qed.

(** *** Building and posting the requests *)

Local Abbreviation make := (mkRequests rt).
Local Abbreviation sent := (afterPost rt).

Lemma buildRequests_run requestBuilder items w :
  buildRequests rt requestBuilder items w
  = (make requestBuilder (uuids w) items,
     {| uuids := uuids w + length items; posted := posted w;
        timers := timers w; logged := logged w |}).
Proof.
  unfold buildRequests. revert w.
  induction items as [|item items IH]; intros w; simpl.
  - unfold ret. destruct w; simpl. now rewrite Nat.add_0_r.
  - unfold bind at 1. unfold bind at 1. simpl.
    unfold bind at 1. rewrite IH. simpl. unfold ret.
    do 3 f_equal. lia.
Qed.

Lemma mkRequests_length requestBuilder n items :
  length (make requestBuilder n items) = length items.
Proof.
  revert n. induction items; intros n; simpl; auto.
Qed.

Lemma mkRequests_fields requestBuilder n items :
  map (@BatchRequest.fields Payload) (make requestBuilder n items)
  = map requestBuilder items.
Proof.
  revert n. induction items as [|item items IH]; intros n; simpl; trivial.
  rewrite IH. f_equal. destruct (requestBuilder item); reflexivity.
Qed.

Lemma mkRequests_ids requestBuilder n items :
  map (@BatchRequest.id Payload) (make requestBuilder n items)
  = map (uuid4 rt) (seq n (length items)).
Proof.
  revert n. induction items as [|item items IH]; intros n; simpl; trivial.
  now rewrite IH.
Qed.

(** One round of [processSingleBatchWithRetry], by the way the call to
    the endpoint settles. *)
Lemma retry_resolved items requestBuilder attempt w responses :
  post client (posted w) (make requestBuilder (uuids w) items) = Resolved responses ->
  retry items requestBuilder attempt w
  = processBatchResponse responses items (sent requestBuilder items w).
Proof.
  intros H. rewrite retry_unfold, buildRequests_run. unfold callPost. simpl.
  now rewrite H.
Qed.

Lemma retry_again items requestBuilder attempt w graphError :
  post client (posted w) (make requestBuilder (uuids w) items) = Rejected graphError ->
  shouldRetry options graphError attempt = true ->
  retry items requestBuilder attempt w
  = retry items requestBuilder (attempt + 1)
      (snd (backOff rt options graphError attempt (sent requestBuilder items w))).
Proof.
  intros H E. rewrite retry_unfold, buildRequests_run. unfold callPost. simpl.
  now rewrite H, E.
Qed.

Lemma retry_given_up items requestBuilder attempt w graphError :
  post client (posted w) (make requestBuilder (uuids w) items) = Rejected graphError ->
  shouldRetry options graphError attempt = false ->
  retry items requestBuilder attempt w
  = failAll items graphError (sent requestBuilder items w).
Proof.
  intros H E. rewrite retry_unfold, buildRequests_run. unfold callPost. simpl.
  now rewrite H, E.
Qed.

Lemma shouldRetry_true graphError attempt :
  shouldRetry options graphError attempt = true <->
  GraphError.statusCode graphError = Some 429
  /\ attempt < Options.maxRetries options.
Proof.
  unfold shouldRetry. rewrite andb_true_iff, Z.ltb_lt.
  destruct (GraphError.statusCode graphError) as [c|].
  - rewrite Z.eqb_eq. split; intros [H1 H2]; split; trivial; congruence.
  - split; intros [H1 H2]; discriminate.
Qed.

(** Induction over the attempts of one group: a property of the result
    holds for every attempt when it holds where the attempts end (a
    reconciled answer, or a group given up) and goes from an attempt to
    the one before it. *)
Lemma retry_induction items requestBuilder
      (P : Z -> World -> Result * World -> Prop) :
  (forall attempt w responses,
      post client (posted w) (make requestBuilder (uuids w) items) = Resolved responses ->
      P attempt w (processBatchResponse responses items (sent requestBuilder items w))) ->
  (forall attempt w graphError,
      post client (posted w) (make requestBuilder (uuids w) items) = Rejected graphError ->
      shouldRetry options graphError attempt = false ->
      P attempt w (failAll items graphError (sent requestBuilder items w))) ->
  (forall attempt w graphError out,
      post client (posted w) (make requestBuilder (uuids w) items) = Rejected graphError ->
      shouldRetry options graphError attempt = true ->
      P (attempt + 1)
        (snd (backOff rt options graphError attempt (sent requestBuilder items w)))
        out ->
      P attempt w out) ->
  forall attempt w, P attempt w (retry items requestBuilder attempt w).
Proof.
  intros Hres Hfail Hagain attempt.
  remember (Z.to_nat (Options.maxRetries options - attempt)) as n eqn:En.
  revert attempt En.
  induction n as [|n IH]; intros attempt En w;
    destruct (post client (posted w) (make requestBuilder (uuids w) items))
      as [responses|graphError] eqn:Epost;
    try (rewrite (retry_resolved _ _ _ _ Epost); now apply Hres);
    destruct (shouldRetry options graphError attempt) eqn:Eretry;
    try (rewrite (retry_given_up _ _ _ _ Epost Eretry); now apply Hfail).
  - apply shouldRetry_true in Eretry. lia.
  - rewrite (retry_again _ _ _ _ Epost Eretry).
    apply (Hagain _ _ _ _ Epost Eretry). apply IH.
    apply shouldRetry_true in Eretry. lia.
Qed.

(** *** What one group's run leaves behind *)

Lemma failAll_run items graphError w :
  failAll items graphError w
  = (BatchResult.Build []
       (map (fun item => {| Failure.request := Some item;
                            Failure.error := batchFailedText graphError |})
            items),
     {| uuids := uuids w; posted := posted w; timers := timers w;
        logged := logged w ++ [BatchFailed (batchFailedText graphError)] |}).
Proof. reflexivity. Qed.

Lemma requestsOf_failAll items graphError w :
  requestsOf (fst (failAll items graphError w)) = map Some items.
Proof.
  rewrite failAll_run. unfold requestsOf. simpl. now rewrite map_map.
Qed.

(** Every attempt ends with each item of the group in one of the two
    lists, when the endpoint answers one sub-response per request. *)
Lemma retry_requests items requestBuilder :
  OnePerRequest client ->
  forall attempt w,
    Permutation (requestsOf (fst (retry items requestBuilder attempt w)))
                (map Some items).
Proof.
  intros Hone.
  apply (retry_induction items requestBuilder
           (fun _ _ out => Permutation (requestsOf (fst out)) (map Some items))).
  - intros attempt w responses Hpost.
    unfold processBatchResponse. rewrite forEach_reconcile_requests. simpl.
    apply Hone in Hpost. rewrite Hpost, mkRequests_length, at_all. reflexivity.
  - intros attempt w graphError _ _. now rewrite requestsOf_failAll.
  - trivial.
Qed.

(** The calls of one group's run are appended to the calls made before,
    and each of them carries the group's requests. *)
Lemma retry_posted items requestBuilder attempt w :
  exists trace,
    posted (snd (retry items requestBuilder attempt w)) = posted w ++ trace
    /\ Forall (fun requests =>
                 map (@BatchRequest.fields Payload) requests
                 = map requestBuilder items) trace.
Proof.
  apply (retry_induction items requestBuilder
           (fun _ w out =>
              exists trace,
                posted (snd out) = posted w ++ trace
                /\ Forall (fun requests =>
                             map (@BatchRequest.fields Payload) requests
                             = map requestBuilder items) trace)).
  - intros a w0 responses _.
    exists [make requestBuilder (uuids w0) items]. split.
    + now destruct (processBatchResponse_world responses items
                      (sent requestBuilder items w0)) as (_ & -> & _).
    + constructor; [apply mkRequests_fields | constructor].
  - intros a w0 graphError _ _.
    exists [make requestBuilder (uuids w0) items]. split; [reflexivity|].
    constructor; [apply mkRequests_fields | constructor].
  - intros a w0 graphError out _ _ (trace & Hp & Hall).
    exists (make requestBuilder (uuids w0) items :: trace). split.
    + rewrite Hp. simpl. now rewrite <- app_assoc.
    + constructor; [apply mkRequests_fields | exact Hall].
Qed.

(** The first call of a run carries the requests built from the
    identifiers that come next. *)
Lemma retry_posted_first items requestBuilder attempt w :
  exists rest,
    posted (snd (retry items requestBuilder attempt w))
    = posted w ++ make requestBuilder (uuids w) items :: rest.
Proof.
  apply (retry_induction items requestBuilder
           (fun _ w out =>
              exists rest,
                posted (snd out)
                = posted w ++ make requestBuilder (uuids w) items :: rest)).
  - intros a w0 responses _. exists [].
    now destruct (processBatchResponse_world responses items
                    (sent requestBuilder items w0)) as (_ & -> & _).
  - intros a w0 graphError _ _. exists []. reflexivity.
  - intros a w0 graphError out _ _ (rest & Hp). rewrite Hp. simpl.
    rewrite <- app_assoc. simpl. eauto.
Qed.

(** Against an endpoint that always answers 429, the attempts from
    [attempt] to [maxRetries] are all made, and no other. *)
Lemma retry_exhausts items requestBuilder :
  AlwaysRateLimited client ->
  forall attempt w,
    attempt <= Options.maxRetries options ->
    let out := retry items requestBuilder attempt w in
    length (posted (snd out))
    = (length (posted w) + Z.to_nat (Options.maxRetries options - attempt + 1))%nat
    /\ length (timers (snd out))
       = (length (timers w) + Z.to_nat (Options.maxRetries options - attempt))%nat
    /\ BatchResult.successful (fst out) = []
    /\ map (@Failure.request T) (BatchResult.failed (fst out)) = map Some items.
Proof.
  intros Hbusy.
  apply (retry_induction items requestBuilder
           (fun attempt w out =>
              attempt <= Options.maxRetries options ->
              length (posted (snd out))
              = (length (posted w)
                 + Z.to_nat (Options.maxRetries options - attempt + 1))%nat
              /\ length (timers (snd out))
                 = (length (timers w)
                    + Z.to_nat (Options.maxRetries options - attempt))%nat
              /\ BatchResult.successful (fst out) = []
              /\ map (@Failure.request T) (BatchResult.failed (fst out))
                 = map Some items)).
  - intros attempt w responses Hpost _.
    destruct (Hbusy (posted w) (make requestBuilder (uuids w) items))
      as (graphError & Hrej & _). congruence.
  - intros attempt w graphError Hpost Hstop Hle.
    destruct (Hbusy (posted w) (make requestBuilder (uuids w) items))
      as (graphError' & Hrej & H429).
    assert (graphError' = graphError) by congruence. subst graphError'.
    assert (Hge : ~ attempt < Options.maxRetries options).
    { intros Hlt. rewrite (proj2 (shouldRetry_true graphError attempt)) in Hstop;
        [discriminate | auto]. }
    rewrite failAll_run. simpl. rewrite length_app, map_map. simpl.
    replace (Options.maxRetries options - attempt) with 0 by lia.
    simpl. repeat split; trivial; lia.
  - intros attempt w graphError out Hpost Hretry IH Hle.
    apply shouldRetry_true in Hretry. destruct Hretry as [_ Hlt].
    destruct IH as (Hp & Ht & Hs & Hf); [lia|].
    simpl in Hp, Ht. rewrite !length_app in Hp, Ht. simpl in Hp, Ht.
    repeat split; trivial; lia.
Qed.

(** *** The loop over the groups *)

Local Abbreviation batchTask := (task rt client options).
Local Abbreviation run := (processBatch rt client options).

Lemma requestsOf_appendResult results batchResult :
  Permutation (requestsOf (appendResult results batchResult))
              (requestsOf results ++ requestsOf batchResult).
Proof.
  unfold requestsOf, appendResult. simpl. rewrite !map_app, <- !app_assoc.
  apply Permutation_app_head. rewrite !app_assoc.
  apply Permutation_app_tail, Permutation_app_comm.
Qed.

Lemma forOf_task_requests requestBuilder :
  OnePerRequest client ->
  forall (groups : list (list T)) results w,
    Permutation
      (requestsOf (fst (forOf (batchTask requestBuilder) groups results w)))
      (requestsOf results ++ map Some (concat groups)).
Proof.
  intros Hone groups.
  induction groups as [|group groups IH]; intros results w; simpl.
  - now rewrite app_nil_r.
  - unfold bind at 1. unfold task at 1. unfold bind at 1.
    pose proof (retry_requests group requestBuilder Hone 1 w) as Hg.
    destruct (retry group requestBuilder 1 w) as [batchResult w1].
    simpl in *. rewrite IH, requestsOf_appendResult, Hg, map_app, app_assoc.
    reflexivity.
Qed.

Lemma forOf_task_sequential requestBuilder (groups : list (list T)) :
  forall results w,
  exists rs w1,
    Sequential rt client options requestBuilder w groups rs w1
    /\ forOf (batchTask requestBuilder) groups results w
       = (appendResult results
            (BatchResult.Build
               (concat (map (@BatchResult.successful T R) rs))
               (concat (map (@BatchResult.failed T R) rs))),
          w1).
Proof.
  induction groups as [|group groups IH]; intros results w; simpl.
  - exists [], w. split; [constructor|].
    simpl. now rewrite appendResult_empty.
  - unfold bind at 1. unfold task at 1. unfold bind at 1.
    destruct (retry group requestBuilder 1 w) as [batchResult w1] eqn:Eg.
    simpl.
    destruct (IH (appendResult results batchResult) w1) as (rs & w' & Hseq & Hrun).
    exists (batchResult :: rs), w'. split.
    + econstructor; eassumption.
    + rewrite Hrun. unfold appendResult. simpl. now rewrite <- !app_assoc.
Qed.

Lemma Sequential_posted requestBuilder w (groups : list (list T)) rs w' :
  Sequential rt client options requestBuilder w groups rs w' ->
  exists traces,
    posted w' = posted w ++ concat traces
    /\ Forall2 (fun group trace =>
                  Forall (fun requests =>
                            map (@BatchRequest.fields Payload) requests
                            = map requestBuilder group) trace)
               groups traces.
Proof.
  induction 1 as [w | w group groups r rs w1 w' Hrun Hseq (traces & Hp & Hall)].
  - exists []. simpl. now rewrite app_nil_r.
  - destruct (retry_posted group requestBuilder 1 w) as (trace & Ht & Hreq).
    rewrite Hrun in Ht. simpl in Ht.
    exists (trace :: traces). split.
    + rewrite Hp, Ht. simpl. now rewrite app_assoc.
    + now constructor.
Qed.

Lemma processBatch_run (requests : list T) requestBuilder w groups :
  chunkArray requests (Options.batchSize options) = Some groups ->
  newPQueue rt (Options.concurrency options) (Options.queueInterval options)
  = None ->
  run requests requestBuilder w
  = Returns
      (let (results, w1) := forOf (batchTask requestBuilder) groups emptyResult w in
       (results,
        {| uuids := uuids w1; posted := posted w1; timers := timers w1;
           logged := logged w1
                     ++ [Completed (length (BatchResult.successful results))
                                   (length (BatchResult.failed results))] |})).
Proof.
  intros Hc Hq. unfold processBatch. rewrite Hc, Hq. unfold bind.
  destruct (forOf (batchTask requestBuilder) groups emptyResult w).
  reflexivity.
Qed.

Lemma processBatch_returns (requests : list T) requestBuilder w r w' :
  run requests requestBuilder w = Returns (r, w') ->
  exists groups,
    chunkArray requests (Options.batchSize options) = Some groups
    /\ r = fst (forOf (batchTask requestBuilder) groups emptyResult w).
Proof.
  unfold processBatch.
  destruct (chunkArray requests (Options.batchSize options)) as [groups|];
    [|discriminate].
  destruct (newPQueue rt (Options.concurrency options)
                      (Options.queueInterval options)); [discriminate|].
  unfold bind. intros H. exists groups. split; [reflexivity|].
  destruct (forOf (batchTask requestBuilder) groups emptyResult w) as [r0 w0].
  simpl in *. now inversion H.
Qed.

Lemma processBatch_throws (requests : list T) requestBuilder w e :
  run requests requestBuilder w = Throws e ->
  newPQueue rt (Options.concurrency options) (Options.queueInterval options)
  = Some e.
Proof.
  unfold processBatch.
  destruct (chunkArray requests (Options.batchSize options)); [|discriminate].
  destruct (newPQueue rt (Options.concurrency options)
                      (Options.queueInterval options)); [|discriminate].
  intros H. now inversion H.
Qed.

(** *** The retry delay *)

Lemma retryAfter_seconds graphError :
  retryAfter rt options graphError
  = secondsAmended rt options (retryAfterHeader graphError).
Proof.
  unfold retryAfter, secondsAmended, Number, numOr.
  destruct (retryAfterHeader graphError) as [ | | hint]; trivial.
Qed.

Lemma backOff_run graphError attempt w :
  snd (backOff rt options graphError attempt w)
  = {| uuids := uuids w; posted := posted w;
       timers := timers w ++ [retryAfter rt options graphError * 1000];
       logged := logged w
                 ++ [RateLimited (retryAfter rt options graphError) attempt] |}.
Proof. reflexivity. Qed.

Lemma nth_error_outcomes message responses items i (response : Response) (item : T) :
  nth_error responses i = Some response ->
  nth_error items i = Some item ->
  nth_error (outcomesWith message responses items) i
  = Some (outcomeWith message response item).
Proof.
  unfold outcomesWith. revert items i.
  induction responses as [|r responses IH]; intros [|it items] [|i] Hr Hi;
    simpl in *; try discriminate.
  - now inversion Hr; inversion Hi.
  - now apply IH.
Qed.

Lemma outcomes_length message responses items :
  length responses = length items ->
  length (outcomesWith message responses items) = length items.
Proof.
  intros H. unfold outcomesWith. rewrite length_map, length_combine. lia.
Qed.

(** *** The claims about the processor *)

(** C1.  When the batch size is positive and the endpoint answers every
    group with one sub-response per request, a result that [processBatch]
    returns holds as many entries as there were items, and the items of
    its two lists are the input items, each as often as it was given.
    The call does return whenever the queue accepts its options. *)
Theorem processBatch_accounts_for_every_item (requests : list T) requestBuilder w :
  0 < Options.batchSize options ->
  OnePerRequest client ->
  (forall r w',
      run requests requestBuilder w = Returns (r, w') ->
      (length (BatchResult.successful r) + length (BatchResult.failed r))%nat
      = length requests
      /\ Permutation (requestsOf r) (map Some requests))
  /\ (newPQueue rt (Options.concurrency options) (Options.queueInterval options)
      = None ->
      exists r w', run requests requestBuilder w = Returns (r, w')).
Proof.
  intros Hsize Hone.
  destruct (@chunkArray_positive T requests _ Hsize) as (groups & Hchunks & Hshape).
  split.
  - intros r w' Hrun.
    apply processBatch_returns in Hrun. destruct Hrun as (groups' & Hc & ->).
    assert (groups' = groups) by congruence. subst groups'.
    assert (Hperm : Permutation
                      (requestsOf (fst (forOf (batchTask requestBuilder) groups
                                              emptyResult w)))
                      (map Some requests)).
    { rewrite (forOf_task_requests requestBuilder Hone). simpl.
      now rewrite (Chunked_concat Hshape). }
    split; trivial.
    rewrite <- requestsOf_length, (Permutation_length Hperm). apply length_map.
  - intros Hq. rewrite (processBatch_run _ _ _ Hchunks Hq).
    destruct (forOf (batchTask requestBuilder) groups emptyResult w).
    eauto.
Qed.

(** C3.  With a positive [maxRetries] and an endpoint that answers 429 to
    every call, a group's run calls the endpoint [maxRetries] times and no
    more, backs off [maxRetries - 1] times, and ends with every item of
    the group in [failed] and none in [successful]; with [maxRetries = 1]
    that is one call and no retry. *)
Theorem retry_stops_at_maxRetries items requestBuilder w :
  0 < Options.maxRetries options ->
  AlwaysRateLimited client ->
  let out := retry items requestBuilder 1 w in
  length (posted (snd out))
  = (length (posted w) + Z.to_nat (Options.maxRetries options))%nat
  /\ length (timers (snd out))
     = (length (timers w) + (Z.to_nat (Options.maxRetries options) - 1))%nat
  /\ BatchResult.successful (fst out) = []
  /\ map (@Failure.request T) (BatchResult.failed (fst out)) = map Some items.
Proof.
  intros Hmax Hbusy.
  destruct (@retry_exhausts items requestBuilder Hbusy 1 w) as (Hp & Ht & Hs & Hf);
    [lia|].
  cbv zeta. rewrite Hp, Ht.
  replace (Options.maxRetries options - 1 + 1) with (Options.maxRetries options)
    by lia.
  repeat split; trivial. lia.
Qed.

(** C4, amended.  When a 429 makes the group retry, the run goes on with
    the next attempt after one timer, and the delay given to that timer
    is 1000 ms times: the hint, when the [Retry-After] header reads as a
    number other than zero; the configured [retryDelay] when the header
    or all headers are missing, when the hint is not a number, and when
    the hint is zero.  The code does not clamp these seconds: a value of
    zero or less goes to the timer as it is. *)
Theorem retry_delay items requestBuilder attempt w graphError :
  post client (posted w) (make requestBuilder (uuids w) items) = Rejected graphError ->
  shouldRetry options graphError attempt = true ->
  let w2 := snd (backOff rt options graphError attempt (sent requestBuilder items w)) in
  retry items requestBuilder attempt w = retry items requestBuilder (attempt + 1) w2
  /\ timers w2
     = timers w
       ++ [1000 * secondsAmended rt options (retryAfterHeader graphError)]
  /\ retryAfter rt options graphError
     = secondsAmended rt options (retryAfterHeader graphError).
Proof.
  intros Hpost Hretry. cbv zeta. split; [|split].
  - now apply retry_again.
  - rewrite <- retryAfter_seconds, Z.mul_comm. reflexivity.
  - apply retryAfter_seconds.
Qed.

(** C5, amended.  For as many responses as items, reconciliation puts
    position [i] in [successful], with the item and the body, when the
    status is in [200, 300) and there is a body, and in [failed]
    otherwise, with the body's error message when there is one that is
    not empty and with "Unknown error (Status: n)" when there is none or
    it is empty; positions keep their order in each list and every
    position has one outcome. *)
Theorem processBatchResponse_classifies responses items w :
  length responses = length items ->
  fst (processBatchResponse responses items w)
  = resultOf (outcomesWith messageAmended responses items)
  /\ length (outcomesWith messageAmended responses items)
     = length items
  /\ forall i response item,
       nth_error responses i = Some response ->
       nth_error items i = Some item ->
       nth_error (outcomesWith messageAmended responses items) i
       = Some (outcomeWith messageAmended response item).
Proof.
  intros Hlen. split; [|split].
  - unfold processBatchResponse.
    rewrite forEach_reconcile_exact by exact Hlen. simpl.
    now destruct (resultOf _).
  - now apply outcomes_length.
  - intros i response item. apply nth_error_outcomes.
Qed.

(** Whatever the two lengths are, the loop adds the entries of the
    positions, in order, to the two lists. *)
Lemma forEach_reconcile_outcomes items responses index results w :
  fst (forEach (reconcile items) responses index results w)
  = appendResult results
      (BatchResult.Build (successesIn (outcomesFrom items responses index))
                         (failuresIn (outcomesFrom items responses index))).
Proof.
  revert index results w.
  induction responses as [|response responses IH]; intros index results w.
  - simpl. now rewrite appendResult_empty.
  - simpl. unfold bind.
    pose proof (reconcile_result items results response index w) as Hr.
    destruct (reconcile items results response index w) as [results' w1].
    simpl in Hr. rewrite IH, Hr. unfold outcomeAt, appendResult.
    destruct (BatchResponse.body response);
      [destruct (inSuccessRange (BatchResponse.status response))|];
      simpl; rewrite <- ?app_assoc; reflexivity.
Qed.

Lemma outcomesFrom_length items responses index :
  length (outcomesFrom items responses index) = length responses.
Proof.
  revert index. induction responses; intros index; simpl; auto.
Qed.

Lemma outcomesFrom_nth items responses index i (response : Response) :
  nth_error responses i = Some response ->
  nth_error (outcomesFrom items responses index) i
  = Some (outcomeAt items response (index + i)).
Proof.
  revert index i.
  induction responses as [|r responses IH]; intros index [|i] H;
    simpl in *; try discriminate.
  - inversion H. now rewrite Nat.add_0_r.
  - rewrite (IH (S index) i H). do 2 f_equal. lia.
Qed.

Lemma carried_outcomeAt items (response : Response) index :
  carried (outcomeAt items response index) = at_ items index.
Proof.
  unfold outcomeAt.
  destruct (BatchResponse.body response);
    [destruct (inSuccessRange (BatchResponse.status response))|]; reflexivity.
Qed.

(** C6, amended.  Reconciliation does not compare the two lengths and
    does not fail: it gives one outcome per response, in the order of the
    responses within each of the two lists, and the outcome of position
    [i] is the one that the response at [i] calls for and carries
    [originalItems[i]], which is [undefined] for a position past the last
    item. *)
Theorem processBatchResponse_one_outcome_per_response responses items w :
  let r := fst (processBatchResponse responses items w) in
  let os := outcomesFrom items responses 0 in
  BatchResult.successful r = successesIn os
  /\ BatchResult.failed r = failuresIn os
  /\ length os = length responses
  /\ (forall i response,
        nth_error responses i = Some response ->
        nth_error os i = Some (outcomeAt items response i)
        /\ carried (outcomeAt items response i) = nth_error items i)
  /\ (forall i response,
        nth_error responses i = Some response ->
        (length items <= i)%nat ->
        carried (outcomeAt items response i) = None)
  /\ (length (BatchResult.successful r) + length (BatchResult.failed r))%nat
     = length responses
  /\ Permutation (requestsOf r) (map (at_ items) (seq 0 (length responses))).
Proof.
  cbv zeta.
  assert (Hperm : Permutation
                    (requestsOf (fst (processBatchResponse responses items w)))
                    (map (at_ items) (seq 0 (length responses)))).
  { unfold processBatchResponse. now rewrite forEach_reconcile_requests. }
  assert (Hfst : fst (processBatchResponse responses items w)
                 = BatchResult.Build
                     (successesIn (outcomesFrom items responses 0))
                     (failuresIn (outcomesFrom items responses 0))).
  { unfold processBatchResponse. now rewrite forEach_reconcile_outcomes. }
  split; [now rewrite Hfst|]. split; [now rewrite Hfst|].
  split; [apply outcomesFrom_length|].
  split; [|split; [|split]].
  - intros i response Hi. split.
    + now apply (outcomesFrom_nth items responses 0).
    + apply carried_outcomeAt.
  - intros i response _ Hpast. rewrite carried_outcomeAt.
    now apply nth_error_None.
  - rewrite <- requestsOf_length, (Permutation_length Hperm).
    now rewrite length_map, length_seq.
  - exact Hperm.
Qed.

(** C7, amended.  Each attempt builds its request list anew: when a 429
    makes the group retry, the next call carries, item for item, the same
    method, url, body and headers as the call before, under identifiers
    drawn anew, so that no identifier of the one list is in the other
    when the generator does not repeat itself. *)
Theorem retry_rebuilds_requests items requestBuilder attempt w graphError :
  (forall m n, uuid4 rt m = uuid4 rt n -> m = n) ->
  post client (posted w) (make requestBuilder (uuids w) items) = Rejected graphError ->
  shouldRetry options graphError attempt = true ->
  let first := make requestBuilder (uuids w) items in
  let second := make requestBuilder (uuids w + length items) items in
  (exists rest,
      posted (snd (retry items requestBuilder attempt w))
      = posted w ++ first :: second :: rest)
  /\ map (@BatchRequest.fields Payload) second
     = map (@BatchRequest.fields Payload) first
  /\ forall r r', In r first -> In r' second ->
                  BatchRequest.id r <> BatchRequest.id r'.
Proof.
  intros Hinj Hpost Hretry. cbv zeta. split; [|split].
  - rewrite (retry_again _ _ _ _ Hpost Hretry).
    destruct (retry_posted_first items requestBuilder (attempt + 1)
                (snd (backOff rt options graphError attempt
                        (sent requestBuilder items w)))) as (rest & Hp).
    exists rest. rewrite Hp. simpl. now rewrite <- app_assoc.
  - now rewrite !mkRequests_fields.
  - intros r r' Hr Hr' Heq.
    apply (in_map (@BatchRequest.id Payload)) in Hr, Hr'.
    rewrite mkRequests_ids in Hr, Hr'.
    apply in_map_iff in Hr, Hr'.
    destruct Hr as (m & Hm & Hin), Hr' as (n & Hn & Hin').
    apply in_seq in Hin, Hin'.
    assert (m = n) by (apply Hinj; congruence). lia.
Qed.

(** C8.  When the endpoint rejects a call with an error that is not a
    429, or with a 429 at an attempt that is not below [maxRetries], the
    run ends there: that call is the last, no timer is set, every item of
    the group is in [failed] with the text "Batch request failed: "
    followed by the error, and this comes back as the value of the run.
    An exception of [processBatch] is never an error of the endpoint: it
    is one that the queue raised when it was made. *)
Theorem terminal_failure_is_data items requestBuilder attempt w graphError :
  post client (posted w) (make requestBuilder (uuids w) items) = Rejected graphError ->
  GraphError.statusCode graphError <> Some 429
  \/ Options.maxRetries options <= attempt ->
  retry items requestBuilder attempt w
  = (BatchResult.Build []
       (map (fun item =>
               {| Failure.request := Some item;
                  Failure.error :=
                    ("Batch request failed: " ++ GraphError.text graphError)%string |})
            items),
     {| uuids := uuids w + length items;
        posted := posted w ++ [make requestBuilder (uuids w) items];
        timers := timers w;
        logged := logged w
                  ++ [BatchFailed
                        ("Batch request failed: " ++ GraphError.text graphError)%string] |})
  /\ forall (requests : list T) w0 e,
       run requests requestBuilder w0 = Throws e ->
       newPQueue rt (Options.concurrency options) (Options.queueInterval options)
       = Some e.
Proof.
  intros Hpost Hstop. split.
  - rewrite (retry_given_up _ _ _ _ Hpost); [reflexivity|].
    destruct (shouldRetry options graphError attempt) eqn:E; trivial.
    apply shouldRetry_true in E. destruct E, Hstop; [congruence | lia].
  - intros requests w0 e. apply processBatch_throws.
Qed.

(** C10.  [processBatch] runs the groups of [chunkArray] one at a time and
    in their order, each to its end before the next starts: its two lists
    are the groups' lists put end to end in the order of the groups, and
    the calls to the endpoint are those of the first group, then those of
    the second, and so on. *)
Theorem processBatch_runs_groups_in_order (requests : list T) requestBuilder w groups :
  chunkArray requests (Options.batchSize options) = Some groups ->
  newPQueue rt (Options.concurrency options) (Options.queueInterval options)
  = None ->
  exists rs w1 traces,
    Sequential rt client options requestBuilder w groups rs w1
    /\ run requests requestBuilder w
       = Returns
           (BatchResult.Build
              (concat (map (@BatchResult.successful T R) rs))
              (concat (map (@BatchResult.failed T R) rs)),
            {| uuids := uuids w1; posted := posted w1; timers := timers w1;
               logged :=
                 logged w1
                 ++ [Completed
                       (length (concat (map (@BatchResult.successful T R) rs)))
                       (length (concat (map (@BatchResult.failed T R) rs)))] |})
    /\ posted w1 = posted w ++ concat traces
    /\ Forall2 (fun group trace =>
                  Forall (fun requests =>
                            map (@BatchRequest.fields Payload) requests
                            = map requestBuilder group) trace)
               groups traces.
Proof.
  intros Hchunks Hq.
  destruct (forOf_task_sequential requestBuilder groups emptyResult w)
    as (rs & w1 & Hseq & Hrun).
  destruct (Sequential_posted Hseq) as (traces & Hp & Hall).
  exists rs, w1, traces. repeat split; trivial.
  rewrite (processBatch_run _ _ _ Hchunks Hq), Hrun. reflexivity.
Qed.

(** *** Further properties of reconciliation *)

Lemma succeeds_cases (response : Response) :
  succeeds response = true
  /\ (exists b, BatchResponse.body response = Some b
                /\ inSuccessRange (BatchResponse.status response) = true)
  \/ succeeds response = false
     /\ (BatchResponse.body response = None
         \/ inSuccessRange (BatchResponse.status response) = false).
Proof.
  unfold succeeds.
  destruct (inSuccessRange (BatchResponse.status response));
    destruct (BatchResponse.body response); simpl; eauto.
Qed.

Lemma reconcile_logged items results (response : Response) index w :
  logged (snd (reconcile items results response index w))
  = logged w ++ (if succeeds response then [] else [FailedResponse response]).
Proof.
  unfold reconcile, succeeds, inSuccessRange.
  destruct ((200 <=? BatchResponse.status response)
            && (BatchResponse.status response <? 300));
    destruct (BatchResponse.body response); simpl;
    rewrite ?app_nil_r; reflexivity.
Qed.

Lemma forEach_reconcile_effects items responses index results w :
  let out := forEach (reconcile items) responses index results w in
  length (BatchResult.successful (fst out))
  = (length (BatchResult.successful results)
     + length (filter succeeds responses))%nat
  /\ map (@Failure.error T) (BatchResult.failed (fst out))
     = map (@Failure.error T) (BatchResult.failed results)
       ++ map messageAmended (filter (fun r => negb (succeeds r)) responses)
  /\ logged (snd out)
     = logged w
       ++ map FailedResponse (filter (fun r => negb (succeeds r)) responses).
Proof.
  revert index results w.
  induction responses as [|response responses IH]; intros index results w.
  - simpl. rewrite !app_nil_r. auto.
  - simpl. unfold bind.
    pose proof (reconcile_result items results response index w) as Hr.
    pose proof (reconcile_logged items results response index w) as Hl.
    destruct (reconcile items results response index w) as [results' w1].
    simpl in Hr, Hl.
    destruct (IH (S index) results' w1) as (Hs & Hf & Hlog).
    rewrite Hs, Hf, Hlog, Hl, Hr. clear IH Hs Hf Hlog Hl Hr.
    destruct (succeeds_cases response) as [[E (b & Eb & Er)] | [E Hno]];
      rewrite E; simpl.
    + rewrite Eb, Er. unfold pushSuccessful. simpl.
      rewrite length_app, app_nil_r. simpl. repeat split; trivial. lia.
    + assert (Hpush :
          match BatchResponse.body response with
          | Some b =>
              if inSuccessRange (BatchResponse.status response)
              then pushSuccessful results
                     {| Success.request := at_ items index; Success.response := b |}
              else pushFailed results
                     {| Failure.request := at_ items index;
                        Failure.error := messageAmended response |}
          | None =>
              pushFailed results
                {| Failure.request := at_ items index;
                   Failure.error := messageAmended response |}
          end
          = pushFailed results
              {| Failure.request := at_ items index;
                 Failure.error := messageAmended response |}).
      { destruct Hno as [-> | Hr]; trivial.
        rewrite Hr. now destruct (BatchResponse.body response). }
      rewrite Hpush. unfold pushFailed. simpl.
      rewrite map_app, <- !app_assoc. simpl. auto.
Qed.

(** X11.  Reconciliation follows the responses, whatever the items are.
    As many entries are in [successful] as there are responses with a
    status in [200, 300) and a body; every other response, a 2xx without
    a body among them, gives an entry in [failed] and one warning in the
    log, in the order of the responses.  No identifier is drawn, no call
    is made and no timer is set. *)
Theorem processBatchResponse_effects responses items w :
  let out := processBatchResponse responses items w in
  length (BatchResult.successful (fst out)) = length (filter succeeds responses)
  /\ map (@Failure.error T) (BatchResult.failed (fst out))
     = map messageAmended (filter (fun r => negb (succeeds r)) responses)
  /\ logged (snd out)
     = logged w
       ++ map FailedResponse (filter (fun r => negb (succeeds r)) responses)
  /\ uuids (snd out) = uuids w
  /\ posted (snd out) = posted w
  /\ timers (snd out) = timers w.
Proof.
  cbv zeta.
  destruct (forEach_reconcile_effects items responses 0 emptyResult w)
    as (Hs & Hf & Hl).
  destruct (processBatchResponse_world responses items w) as (Hu & Hp & Ht).
  unfold processBatchResponse in *. simpl in Hs, Hf.
  repeat split; trivial.
Qed.

(** *** Further properties of one group's run *)

(** Calls and back-offs of a run that starts at [attempt]. *)
Lemma retry_calls items requestBuilder attempt w :
  let out := retry items requestBuilder attempt w in
  exists calls,
    length (posted (snd out)) = (length (posted w) + calls)%nat
    /\ length (timers (snd out)) = (length (timers w) + (calls - 1))%nat
    /\ (1 <= calls)%nat
    /\ Z.of_nat calls <= Z.max 1 (Options.maxRetries options - attempt + 1).
Proof.
  cbv zeta.
  apply (retry_induction items requestBuilder
           (fun attempt w out =>
              exists calls,
                length (posted (snd out)) = (length (posted w) + calls)%nat
                /\ length (timers (snd out)) = (length (timers w) + (calls - 1))%nat
                /\ (1 <= calls)%nat
                /\ Z.of_nat calls
                   <= Z.max 1 (Options.maxRetries options - attempt + 1))).
  - intros a w0 responses _. exists 1%nat.
    destruct (processBatchResponse_world responses items (sent requestBuilder items w0))
      as (_ & -> & ->).
    simpl. rewrite length_app. simpl. repeat split; lia.
  - intros a w0 graphError _ _. exists 1%nat.
    simpl. rewrite length_app. simpl. repeat split; lia.
  - intros a w0 graphError out _ Hretry (calls & Hp & Ht & Hlo & Hhi).
    apply shouldRetry_true in Hretry. destruct Hretry as [_ Hlt].
    exists (S calls). simpl in Hp, Ht. rewrite length_app in Hp, Ht.
    simpl in Hp, Ht. repeat split; lia.
Qed.

(** X5.  Whatever the endpoint does, a group's run calls it at least once
    and at most [maxRetries] times (once when [maxRetries] is below 1),
    and backs off once less than it calls. *)
Theorem retry_call_bounds items requestBuilder w :
  let out := retry items requestBuilder 1 w in
  exists calls,
    length (posted (snd out)) = (length (posted w) + calls)%nat
    /\ length (timers (snd out)) = (length (timers w) + (calls - 1))%nat
    /\ (1 <= calls)%nat
    /\ Z.of_nat calls <= Z.max 1 (Options.maxRetries options).
Proof.
  cbv zeta.
  destruct (retry_calls items requestBuilder 1 w) as (calls & Hp & Ht & Hlo & Hhi).
  exists calls. repeat split; trivial. lia.
Qed.

(** The endpoint never rejects a call with status 429. *)
Local Abbreviation NeverRateLimited :=
  (forall history requests graphError,
      post client history requests = Rejected graphError ->
      GraphError.statusCode graphError <> Some 429).


(** X12.  A group's run ends either with the reconciliation of an answer of
    the endpoint to the group's requests, or with no success at all and
    every item of the group failed, in order, under the text of one and
    the same error of the endpoint. *)
Theorem retry_all_or_nothing items requestBuilder attempt w :
  let out := retry items requestBuilder attempt w in
  (exists history requests responses w0,
      post client history requests = Resolved responses
      /\ map (@BatchRequest.fields Payload) requests = map requestBuilder items
      /\ out = processBatchResponse responses items w0)
  \/ (exists history requests graphError,
         post client history requests = Rejected graphError
         /\ map (@BatchRequest.fields Payload) requests = map requestBuilder items
         /\ fst out
            = BatchResult.Build []
                (map (fun item =>
                        {| Failure.request := Some item;
                           Failure.error :=
                             ("Batch request failed: "
                              ++ GraphError.text graphError)%string |})
                     items)).
Proof.
  cbv zeta.
  apply (retry_induction items requestBuilder
           (fun _ _ out =>
              (exists history requests responses w0,
                  post client history requests = Resolved responses
                  /\ map (@BatchRequest.fields Payload) requests
                     = map requestBuilder items
                  /\ out = processBatchResponse responses items w0)
              \/ (exists history requests graphError,
                     post client history requests = Rejected graphError
                     /\ map (@BatchRequest.fields Payload) requests
                        = map requestBuilder items
                     /\ fst out
                        = BatchResult.Build []
                            (map (fun item =>
                                    {| Failure.request := Some item;
                                       Failure.error :=
                                         ("Batch request failed: "
                                          ++ GraphError.text graphError)%string |})
                                 items)))).
  - intros a w0 responses Hpost. left.
    exists (posted w0), (make requestBuilder (uuids w0) items), responses,
      (sent requestBuilder items w0).
    repeat split; trivial. apply mkRequests_fields.
  - intros a w0 graphError Hpost _. right.
    exists (posted w0), (make requestBuilder (uuids w0) items), graphError.
    repeat split; trivial. apply mkRequests_fields.
  - trivial.
Qed.

Local Abbreviation Ids := (IdsPosted rt).

Lemma sent_ids requestBuilder items k w :
  Ids k w -> Ids k (sent requestBuilder items w).
Proof.
  unfold IdsPosted. intros [Hk Hids]. simpl. split; [lia|].
  rewrite concat_app, map_app, Hids. simpl. rewrite app_nil_r, mkRequests_ids.
  replace (uuids w + length items - k)%nat
    with ((uuids w - k) + length items)%nat by lia.
  rewrite seq_app, map_app. do 3 f_equal. lia.
Qed.

Lemma retry_ids items requestBuilder k attempt w :
  Ids k w -> Ids k (snd (retry items requestBuilder attempt w)).
Proof.
  apply (retry_induction items requestBuilder
           (fun _ w out => Ids k w -> Ids k (snd out))).
  - intros a w0 responses _ Hw.
    apply (sent_ids requestBuilder items) in Hw. unfold IdsPosted in *.
    now destruct (processBatchResponse_world responses items
                    (sent requestBuilder items w0)) as (-> & -> & _).
  - intros a w0 graphError _ _ Hw.
    apply (sent_ids requestBuilder items) in Hw. exact Hw.
  - intros a w0 graphError out _ _ IH Hw. apply IH.
    apply (sent_ids requestBuilder items) in Hw. exact Hw.
Qed.

(** The successes and the failures of one group's run are the items at
    the positions of a mask and at the other positions. *)
Lemma outcomeWith_succeeds message (response : Response) (item : T) :
  match outcomeWith message response item with
  | IsSuccess i _ => succeeds response = true /\ i = item
  | IsFailure i _ => succeeds response = false /\ i = item
  end.
Proof.
  unfold outcomeWith, succeeds.
  destruct (BatchResponse.body response);
    destruct (inSuccessRange (BatchResponse.status response)); auto.
Qed.

Lemma outcomes_partition message responses items :
  length responses = length items ->
  map (@Success.request T R) (successesOf (outcomesWith message responses items))
  = map Some (select (map succeeds responses) items)
  /\ map (@Failure.request T) (failuresOf (outcomesWith message responses items))
     = map Some (select (map negb (map succeeds responses)) items).
Proof.
  unfold outcomesWith. revert items.
  induction responses as [|response responses IH]; intros [|item items] Hlen;
    try discriminate; simpl; auto.
  destruct (IH items) as [Hs Hf]; [simpl in Hlen; lia|].
  pose proof (outcomeWith_succeeds message response item) as Ho.
  destruct (outcomeWith message response item); destruct Ho as [-> ->];
    simpl; rewrite Hs, Hf; auto.
Qed.

Lemma select_none (items : list T) :
  select (repeat false (length items)) items = []
  /\ select (map negb (repeat false (length items))) items = items.
Proof.
  induction items as [|item items [IH1 IH2]]; simpl; auto.
  split; trivial. now f_equal.
Qed.

Lemma select_app {A} (m1 m2 : list bool) (l1 l2 : list A) :
  length m1 = length l1 ->
  select (m1 ++ m2) (l1 ++ l2) = select m1 l1 ++ select m2 l2.
Proof.
  revert l1. induction m1 as [|b m1 IH]; intros [|x l1] H;
    try discriminate; simpl; trivial.
  rewrite IH by (simpl in H; lia). now destruct b.
Qed.

Lemma retry_partition items requestBuilder :
  OnePerRequest client ->
  forall attempt w,
  exists mask,
    length mask = length items
    /\ map (@Success.request T R)
           (BatchResult.successful (fst (retry items requestBuilder attempt w)))
       = map Some (select mask items)
    /\ map (@Failure.request T)
           (BatchResult.failed (fst (retry items requestBuilder attempt w)))
       = map Some (select (map negb mask) items).
Proof.
  intros Hone.
  apply (retry_induction items requestBuilder
           (fun _ _ out =>
              exists mask,
                length mask = length items
                /\ map (@Success.request T R) (BatchResult.successful (fst out))
                   = map Some (select mask items)
                /\ map (@Failure.request T) (BatchResult.failed (fst out))
                   = map Some (select (map negb mask) items))).
  - intros a w0 responses Hpost.
    apply Hone in Hpost. rewrite mkRequests_length in Hpost.
    exists (map succeeds responses). rewrite length_map. split; trivial.
    unfold processBatchResponse.
    rewrite forEach_reconcile_exact by exact Hpost. simpl.
    now apply outcomes_partition.
  - intros a w0 graphError _ _.
    exists (repeat false (length items)). rewrite repeat_length.
    destruct (select_none items) as [-> ->]. simpl. rewrite map_map. auto.
  - trivial.
Qed.

(** *** Further properties of the loop over the groups *)

Lemma processBatch_inv (requests : list T) requestBuilder w r w' :
  run requests requestBuilder w = Returns (r, w') ->
  exists groups rs w1,
    chunkArray requests (Options.batchSize options) = Some groups
    /\ Sequential rt client options requestBuilder w groups rs w1
    /\ r = BatchResult.Build
             (concat (map (@BatchResult.successful T R) rs))
             (concat (map (@BatchResult.failed T R) rs))
    /\ uuids w' = uuids w1 /\ posted w' = posted w1 /\ timers w' = timers w1.
Proof.
  intros H.
  destruct (chunkArray requests (Options.batchSize options)) as [groups|] eqn:Hc;
    [|unfold processBatch in H; rewrite Hc in H; discriminate].
  destruct (newPQueue rt (Options.concurrency options)
                      (Options.queueInterval options)) eqn:Hq;
    [unfold processBatch in H; rewrite Hc, Hq in H; discriminate|].
  rewrite (processBatch_run _ _ _ Hc Hq) in H.
  destruct (forOf_task_sequential requestBuilder groups emptyResult w)
    as (rs & w1 & Hseq & Hrun).
  rewrite Hrun in H. inversion H; subst.
  exists groups, rs, w1. simpl. repeat split; trivial.
Qed.

Lemma Sequential_calls requestBuilder w (groups : list (list T)) rs w' :
  Sequential rt client options requestBuilder w groups rs w' ->
  exists calls,
    length (posted w') = (length (posted w) + calls)%nat
    /\ (length (timers w') + length groups)%nat
       = (length (timers w) + calls)%nat
    /\ (length groups <= calls)%nat
    /\ Z.of_nat calls
       <= Z.of_nat (length groups) * Z.max 1 (Options.maxRetries options).
Proof.
  induction 1 as [w | w group groups r rs w1 w' Hrun Hseq (calls & Hp & Ht & Hlo & Hhi)].
  - exists 0%nat. simpl. repeat split; lia.
  - destruct (retry_calls group requestBuilder 1 w) as (c & Hp1 & Ht1 & Hlo1 & Hhi1).
    rewrite Hrun in Hp1, Ht1. simpl in Hp1, Ht1.
    replace (Options.maxRetries options - 1 + 1)
      with (Options.maxRetries options) in Hhi1 by lia.
    exists (c + calls)%nat. simpl length. repeat split; first [lia | nia].
Qed.



Lemma Sequential_ids requestBuilder k w (groups : list (list T)) rs w' :
  Sequential rt client options requestBuilder w groups rs w' ->
  Ids k w -> Ids k w'.
Proof.
  induction 1 as [w | w group groups r rs w1 w' Hrun Hseq IH]; trivial.
  intros Hw. apply IH.
  pose proof (@retry_ids group requestBuilder k 1 w Hw) as H1.
  now rewrite Hrun in H1.
Qed.

Lemma Sequential_partition requestBuilder w (groups : list (list T)) rs w' :
  OnePerRequest client ->
  Sequential rt client options requestBuilder w groups rs w' ->
  exists mask,
    length mask = length (concat groups)
    /\ map (@Success.request T R) (concat (map (@BatchResult.successful T R) rs))
       = map Some (select mask (concat groups))
    /\ map (@Failure.request T) (concat (map (@BatchResult.failed T R) rs))
       = map Some (select (map negb mask) (concat groups)).
Proof.
  intros Hone.
  induction 1 as [w | w group groups r rs w1 w' Hrun Hseq (mask & Hlen & Hs & Hf)].
  - exists []. simpl. auto.
  - destruct (retry_partition group requestBuilder Hone 1 w)
      as (m & Hlen1 & Hs1 & Hf1).
    rewrite Hrun in Hs1, Hf1. simpl in Hs1, Hf1.
    exists (m ++ mask). simpl.
    rewrite !map_app, !select_app, !map_app, Hs1, Hf1, Hs, Hf, !length_app
      by (rewrite ?length_map; trivial).
    repeat split; trivial. lia.
Qed.

Lemma retryAfter_nonzero graphError :
  Options.retryDelay options <> 0 -> retryAfter rt options graphError <> 0.
Proof.
  intros Hdelay. unfold retryAfter, numOr.
  destruct (Number rt (retryAfterHeader graphError)) as [|n]; trivial.
  destruct (Z.eqb_spec n 0); trivial.
Qed.

(** X13.  Every timer that a group's run sets answers a 429 that the
    endpoint raised for the group's requests and is set to 1000 ms times
    the seconds computed from that error; it is set to zero only when
    the configured [retryDelay] is zero, also when the hint says zero. *)
Theorem retry_timers items requestBuilder attempt w :
  exists delays,
    timers (snd (retry items requestBuilder attempt w)) = timers w ++ delays
    /\ Forall (fun ms =>
                 (exists history requests graphError,
                     post client history requests = Rejected graphError
                     /\ GraphError.statusCode graphError = Some 429
                     /\ map (@BatchRequest.fields Payload) requests
                        = map requestBuilder items
                     /\ ms = retryAfter rt options graphError * 1000)
                 /\ (Options.retryDelay options <> 0 -> ms <> 0))
              delays.
Proof.
  apply (retry_induction items requestBuilder
           (fun _ w out =>
              exists delays,
                timers (snd out) = timers w ++ delays
                /\ Forall (fun ms =>
                             (exists history requests graphError,
                                 post client history requests = Rejected graphError
                                 /\ GraphError.statusCode graphError = Some 429
                                 /\ map (@BatchRequest.fields Payload) requests
                                    = map requestBuilder items
                                 /\ ms = retryAfter rt options graphError * 1000)
                             /\ (Options.retryDelay options <> 0 -> ms <> 0))
                          delays)).
  - intros a w0 responses _. exists [].
    destruct (processBatchResponse_world responses items
                (sent requestBuilder items w0)) as (_ & _ & ->).
    simpl. now rewrite app_nil_r.
  - intros a w0 graphError _ _. exists []. simpl. now rewrite app_nil_r.
  - intros a w0 graphError out Hpost Hretry (delays & Ht & Hall).
    apply shouldRetry_true in Hretry. destruct Hretry as [H429 _].
    exists (retryAfter rt options graphError * 1000 :: delays). split.
    + rewrite Ht. simpl. now rewrite <- app_assoc.
    + constructor; trivial. split.
      * exists (posted w0), (make requestBuilder (uuids w0) items), graphError.
        repeat split; trivial. apply mkRequests_fields.
      * intros Hdelay. pose proof (retryAfter_nonzero graphError Hdelay). lia.
Qed.

Lemma Forall2_traces (P : list Request -> Prop) (Q : list T -> Prop)
      (rel : list T -> list Request -> Prop)
      (groups : list (list T)) (traces : list (list (list Request))) :
  (forall group requests, Q group -> rel group requests -> P requests) ->
  Forall Q groups ->
  Forall2 (fun group trace => Forall (rel group) trace) groups traces ->
  Forall P (concat traces).
Proof.
  intros Hstep HQ H. induction H as [|group trace groups traces Hgt _ IH]; simpl.
  - constructor.
  - inversion HQ; subst. apply Forall_app. split; [|auto].
    eapply Forall_impl; [|exact Hgt]. intros requests. now apply Hstep.
Qed.

Lemma NoDup_map_injective {A B} (f : A -> B) (l : list A) :
  (forall x y, f x = f y -> x = y) -> NoDup l -> NoDup (map f l).
Proof.
  intros Hinj. induction 1 as [|x l Hnotin _ IH]; simpl; constructor; trivial.
  intros Hin. apply in_map_iff in Hin. destruct Hin as (y & Hy & Hin).
  apply Hinj in Hy. now subst.
Qed.

(** *** Further properties of [processBatch] *)

(** X2.  With a batch size of zero or less and at least one item,
    [processBatch] never comes back: the loop of [chunkArray] is still
    running after any number of iterations, and nothing after it is
    reached. *)
Theorem processBatch_nonpositive_size (requests : list T) requestBuilder w :
  Options.batchSize options <= 0 ->
  requests <> [] ->
  run requests requestBuilder w = Diverges
  /\ forall fuel, chunkLoop fuel requests (Options.batchSize options) 0 [] = None.
Proof.
  intros Hsize Hne.
  destruct (@chunkArray_nonpositive T requests _ Hsize Hne) as [Hc Hall].
  split; trivial. unfold processBatch. now rewrite Hc.
Qed.

(** X3.  For no items at all [processBatch] makes the queue and nothing
    else, whatever the batch size: when the queue throws, so does
    [processBatch]; otherwise it returns two empty lists and has made no
    call, drawn no identifier and set no timer. *)
Theorem processBatch_empty_input requestBuilder w :
  run (@nil T) requestBuilder w
  = match newPQueue rt (Options.concurrency options)
                    (Options.queueInterval options) with
    | Some e => Throws e
    | None =>
        Returns (BatchResult.Build [] [],
                 {| uuids := uuids w; posted := posted w; timers := timers w;
                    logged := logged w ++ [Completed 0 0] |})
    end.
Proof.
  unfold processBatch, chunkArray. simpl.
  destruct (newPQueue rt (Options.concurrency options)
                      (Options.queueInterval options)); reflexivity.
Qed.

(** X4.  Every request list that [processBatch] posts holds at least one
    request and at most [batchSize] requests. *)
Theorem processBatch_request_sizes (requests : list T) requestBuilder w r w' :
  run requests requestBuilder w = Returns (r, w') ->
  exists trace,
    posted w' = posted w ++ trace
    /\ Forall (fun batchRequests =>
                 1 <= length batchRequests
                 <= Z.to_nat (Options.batchSize options))%nat trace.
Proof.
  intros Hrun.
  apply processBatch_inv in Hrun.
  destruct Hrun as (groups & rs & w1 & Hc & Hseq & _ & _ & Hp & _).
  destruct (Sequential_posted Hseq) as (traces & Ht & Hall).
  destruct (chunkArray_returned _ _ Hc) as [_ Hbounds].
  exists (concat traces). split; [congruence|].
  eapply Forall2_traces; [|exact Hbounds|exact Hall].
  intros group batchRequests Hg Hfields. cbv beta in Hg, Hfields.
  apply (f_equal (@length _)) in Hfields. rewrite !length_map in Hfields.
  rewrite Hfields. exact Hg.
Qed.

(** X6.  The calls of a whole run: with [g] groups (the items divided by
    a positive batch size, rounded up), [processBatch] calls the endpoint
    at least [g] times and at most [g] times [maxRetries] (at most [g]
    times when [maxRetries] is below 1), and sets one timer for every
    call beyond the first of a group. *)
Theorem processBatch_call_bounds (requests : list T) requestBuilder w r w' :
  0 < Options.batchSize options ->
  run requests requestBuilder w = Returns (r, w') ->
  let g := (Z.of_nat (length requests) + Options.batchSize options - 1)
           / Options.batchSize options in
  exists calls,
    Z.of_nat (length (posted w')) = Z.of_nat (length (posted w)) + calls
    /\ Z.of_nat (length (timers w')) = Z.of_nat (length (timers w)) + calls - g
    /\ g <= calls <= g * Z.max 1 (Options.maxRetries options).
Proof.
  intros Hsize Hrun. cbv zeta.
  apply processBatch_inv in Hrun.
  destruct Hrun as (groups & rs & w1 & Hc & Hseq & _ & _ & Hp & Ht).
  rewrite <- (chunkArray_ceiling _ Hsize Hc).
  destruct (Sequential_calls Hseq) as (calls & Hp1 & Ht1 & Hlo & Hhi).
  exists (Z.of_nat calls). rewrite Hp, Ht. repeat split; lia.
Qed.



(** X9.  With a generator that does not repeat itself, no identifier is
    used twice in the requests that [processBatch] posts, neither within
    a request list nor from one list, group or attempt to another. *)
Theorem processBatch_fresh_ids (requests : list T) requestBuilder w r w' :
  (forall m n, uuid4 rt m = uuid4 rt n -> m = n) ->
  posted w = [] ->
  run requests requestBuilder w = Returns (r, w') ->
  NoDup (map (@BatchRequest.id Payload) (concat (posted w'))).
Proof.
  intros Hinj Hfresh Hrun.
  apply processBatch_inv in Hrun.
  destruct Hrun as (groups & rs & w1 & _ & Hseq & _ & Hu & Hp & _).
  assert (Hw : Ids (uuids w) w).
  { unfold IdsPosted. rewrite Hfresh, Nat.sub_diag. simpl. auto. }
  apply (Sequential_ids Hseq) in Hw. destruct Hw as [_ Hids].
  rewrite Hp, Hids. apply NoDup_map_injective; trivial. apply seq_NoDup.
Qed.

(** X10.  When the endpoint answers one sub-response per request, the
    result of [processBatch] is the input split in two without any
    reordering: [successful] holds the items at some positions of the
    input and [failed] the items at the other positions, both in the
    order of the input. *)
Theorem processBatch_stable_partition (requests : list T) requestBuilder w r w' :
  OnePerRequest client ->
  run requests requestBuilder w = Returns (r, w') ->
  exists mask,
    length mask = length requests
    /\ map (@Success.request T R) (BatchResult.successful r)
       = map Some (select mask requests)
    /\ map (@Failure.request T) (BatchResult.failed r)
       = map Some (select (map negb mask) requests).
Proof.
  intros Hone Hrun.
  apply processBatch_inv in Hrun.
  destruct Hrun as (groups & rs & w1 & Hc & Hseq & -> & _).
  destruct (chunkArray_returned _ _ Hc) as [Hconcat _].
  destruct (Sequential_partition Hone Hseq) as (mask & Hlen & Hs & Hf).
  rewrite Hconcat in *. exists mask. simpl. auto.
Qed.

End ProcessorFacts.

(** ** The claims about the chunker and the constructor *)

(** C9, amended.  Nothing in [chunkArray], nor before it in
    [processBatch], checks the size, and no configuration error is ever
    signalled; for every size above zero and every list, [chunkArray]
    returns, and what it returns are groups of exactly [size] items that
    follow one another in the input, the last one holding the remainder. *)
Theorem chunkArray_groups {A : Type} (array : list A) (size : Z) :
  0 < size ->
  exists chunks,
    chunkArray array size = Some chunks
    /\ Chunked (Z.to_nat size) array chunks
    /\ concat chunks = array
    /\ Forall (fun c => 1 <= length c <= Z.to_nat size)%nat chunks.
Proof.
  intros Hsize.
  destruct (@chunkArray_positive A array size Hsize) as (chunks & Hrun & Hshape).
  exists chunks. repeat split; trivial.
  - eapply Chunked_concat; eassumption.
  - eapply Chunked_bounds; eassumption.
Qed.

(** With [options] given, the constructor copies them and computes no
    default; so it does with options of the declared type. *)
Lemma constructor_copies_options target (o : OptionsObject.t) :
  Constructor.constructor target (Some o) = Returns o.
Proof. destruct o; reflexivity. Qed.

Lemma constructor_typed_options target (o : Options.t) :
  Constructor.constructor target (Some (OptionsObject.ofOptions o))
  = Returns (OptionsObject.ofOptions o).
Proof. apply constructor_copies_options. Qed.

(** C2.  A processor made without [options] is not made at all: the
    default value of the parameter reads [options.retryDelay] of the very
    parameter it is the default of, which throws under either language
    level, so that none of the documented defaults is ever in force.  A
    caller who passes some of the fields, as the README does, gets those
    fields and no default for the others. *)
Theorem constructor_without_options_throws :
  (forall target,
      (exists e, Constructor.constructor target None = Throws e)
      /\ Constructor.constructor target None
         <> Returns Constructor.documentedDefaults)
  /\ Constructor.constructor Constructor.ES2015 None
     = Throws (ReferenceError "Cannot access 'options' before initialization")
  /\ forall target,
       Constructor.constructor target
         (Some {| OptionsObject.batchSize := Some 20;
                  OptionsObject.concurrency := Some 2;
                  OptionsObject.maxRetries := None;
                  OptionsObject.retryDelay := None;
                  OptionsObject.queueInterval := None |})
       = Returns {| OptionsObject.batchSize := Some 20;
                    OptionsObject.concurrency := Some 2;
                    OptionsObject.maxRetries := None;
                    OptionsObject.retryDelay := None;
                    OptionsObject.queueInterval := None |}.
Proof.
  split; [|split].
  - intros [|]; split; try (eexists; reflexivity); discriminate.
  - reflexivity.
  - reflexivity.
Qed.

(** ** The code at work on examples *)

Section Examples.
Import Sample.

Lemma counterUuid_inj m n : counterUuid m = counterUuid n -> m = n.
Proof.
  unfold counterUuid. intros H.
  apply (f_equal (fun s => NilEmpty.uint_of_string (substring 5 (String.length s - 5) s))) in H.
  simpl in H. rewrite !Nat.sub_0_r in H.
  assert (Hsub : forall s, substring 0 (String.length s) s = s).
  { induction s; simpl; congruence. }
  rewrite !Hsub, !NilEmpty.usu in H.
  apply DecimalNat.Unsigned.to_uint_inj. congruence.
Qed.

(** 45 items in groups of 20 *)
Example chunk_45_by_20 :
  option_map (map (@length nat)) (chunkArray (repeat 7%nat 45) 20)
  = Some [20; 20; 5]%nat.
Proof. reflexivity. Qed.

(** One 404 with a message among answers with status 200 *)
Example one_not_found :
  fst (processBatchResponse
         [ok (BatchRequest.Build "a" GET "/users/1" None None);
          notFound "not found";
          ok (BatchRequest.Build "c" GET "/users/3" None None)]
         [1; 2; 3]%nat start)
  = BatchResult.Build
      [ {| Success.request := Some 1%nat; Success.response := okBody |};
        {| Success.request := Some 3%nat; Success.response := okBody |} ]
      [ {| Failure.request := Some 2%nat; Failure.error := "not found" |} ].
Proof. reflexivity. Qed.

(** [maxRetries = 1]: one call, no timer, the group failed *)
Example no_retry_with_one_attempt :
  let out := processSingleBatchWithRetry rt (busy (Some "1"%string))
               (options 20 1 1) [1; 2]%nat builder 1 start in
  length (posted (snd out)) = 1%nat
  /\ timers (snd out) = []
  /\ map (@Failure.request nat) (BatchResult.failed (fst out)) = [Some 1; Some 2]%nat.
Proof. vm_compute. auto. Qed.

(** 45 items in groups of 20 that all succeed *)
Example all_45_succeed :
  match processBatch rt allOk (options 20 3 1) (seq 1 45) builder start with
  | Returns (r, w) =>
      length (BatchResult.successful r) = 45%nat
      /\ BatchResult.failed r = []
      /\ map (@length _) (posted w) = [20; 20; 5]%nat
  | _ => False
  end.
Proof. vm_compute. auto. Qed.

(** A 429 with the hint "1" at the first attempt, success at the second:
    both items succeed, one retry is logged with delay 1, and the timer
    was set to 1000 ms. *)
Example one_retry_then_success :
  let out := processSingleBatchWithRetry rt (busyOnce "1") (options 20 3 30)
               [1; 2]%nat builder 1 start in
  map (@Success.request nat nat) (BatchResult.successful (fst out))
  = [Some 1; Some 2]%nat
  /\ BatchResult.failed (fst out) = []
  /\ logged (snd out) = [RateLimited 1 1]
  /\ timers (snd out) = [1000]
  /\ length (posted (snd out)) = 2%nat.
Proof. vm_compute. auto 6. Qed.

(** A negative [retryDelay] goes to the timer as it is. *)
Example negative_delay_not_clamped :
  timers (snd (processSingleBatchWithRetry rt (busy None) (options 20 2 (-3))
                 [1%nat] builder 1 start))
  = [-3000].
Proof. reflexivity. Qed.

(** The hint "5" gives 5 seconds whatever [retryDelay] is; no headers, no
    such header and a hint that is no number give [retryDelay]. *)
Example hint_five_seconds (retryDelay : Z) :
  retryAfter rt (options 20 3 retryDelay) (rateLimit (Some "5"%string)) = 5.
Proof. reflexivity. Qed.

Example no_hint_retryDelay (retryDelay : Z) :
  retryAfter rt (options 20 3 retryDelay) (rateLimit None) = retryDelay
  /\ retryAfter rt (options 20 3 retryDelay)
       {| GraphError.statusCode := Some 429;
          GraphError.headers := Some {| Headers.get := fun _ => None |};
          GraphError.text := "" |} = retryDelay
  /\ retryAfter rt (options 20 3 retryDelay) (rateLimit (Some "soon"%string))
     = retryDelay.
Proof. repeat split; destruct retryDelay; reflexivity. Qed.

End Examples.

(** ** The theorems at concrete inputs *)

Lemma allOk_one_per_request : OnePerRequest Sample.allOk.
Proof.
  intros history requests responses H. simpl in H.
  inversion H. apply length_map.
Qed.

Lemma busy_always_rate_limited hint : AlwaysRateLimited (Sample.busy hint).
Proof.
  intros history requests. exists (Sample.rateLimit hint). split; reflexivity.
Qed.

Lemma processBatch_accounts_for_every_item_witness :
  0 < Options.batchSize (Sample.options 2 3 1)
  /\ OnePerRequest Sample.allOk
  /\ ((forall r w',
         processBatch Sample.rt Sample.allOk (Sample.options 2 3 1)
                      [1; 2; 3]%nat Sample.builder Sample.start
         = Returns (r, w') ->
         (length (BatchResult.successful r) + length (BatchResult.failed r))%nat
         = 3%nat
         /\ Permutation (requestsOf r) [Some 1; Some 2; Some 3]%nat)
      /\ (newPQueue Sample.rt 2 1000 = None ->
          exists r w',
            processBatch Sample.rt Sample.allOk (Sample.options 2 3 1)
                         [1; 2; 3]%nat Sample.builder Sample.start
            = Returns (r, w'))).
Proof.
  split; [reflexivity|]. split; [exact allOk_one_per_request|].
  apply (@processBatch_accounts_for_every_item
           nat nat unit Sample.rt Sample.allOk (Sample.options 2 3 1)
           [1; 2; 3]%nat Sample.builder Sample.start).
  - reflexivity.
  - exact allOk_one_per_request.
Defined.

Lemma retry_stops_at_maxRetries_witness :
  0 < Options.maxRetries (Sample.options 20 3 1)
  /\ AlwaysRateLimited (Sample.busy None)
  /\ let out := processSingleBatchWithRetry Sample.rt (Sample.busy None)
                  (Sample.options 20 3 1) [1; 2]%nat Sample.builder 1
                  Sample.start in
     length (posted (snd out)) = (0 + 3)%nat
     /\ length (timers (snd out)) = (0 + (3 - 1))%nat
     /\ BatchResult.successful (fst out) = []
     /\ map (@Failure.request nat) (BatchResult.failed (fst out))
        = [Some 1; Some 2]%nat.
Proof.
  split; [reflexivity|]. split; [apply busy_always_rate_limited|].
  apply (@retry_stops_at_maxRetries
           nat nat unit Sample.rt (Sample.busy None) (Sample.options 20 3 1)
           [1; 2]%nat Sample.builder Sample.start).
  - reflexivity.
  - apply busy_always_rate_limited.
Defined.

Lemma retry_delay_witness :
  let graphError := Sample.rateLimit (Some "5"%string) in
  let client := Sample.busy (Some "5"%string) in
  let options := Sample.options 20 3 7 in
  let w2 := snd (backOff Sample.rt options graphError 1
                   (afterPost Sample.rt Sample.builder [1%nat] Sample.start)) in
  shouldRetry options graphError 1 = true
  /\ processSingleBatchWithRetry Sample.rt client options [1%nat] Sample.builder 1
       Sample.start
     = processSingleBatchWithRetry Sample.rt client options [1%nat] Sample.builder
         (1 + 1) w2
  /\ timers w2
     = [] ++ [1000 * secondsAmended Sample.rt options (retryAfterHeader graphError)]
  /\ retryAfter Sample.rt options graphError
     = secondsAmended Sample.rt options (retryAfterHeader graphError).
Proof.
  cbv zeta. split; [reflexivity|].
  apply (@retry_delay
           nat nat unit Sample.rt (Sample.busy (Some "5"%string))
           (Sample.options 20 3 7) [1%nat] Sample.builder 1 Sample.start
           (Sample.rateLimit (Some "5"%string))).
  - reflexivity.
  - reflexivity.
Defined.

Lemma processBatchResponse_classifies_witness :
  let responses :=
    [Sample.ok (BatchRequest.Build "a" GET "/users/1" None None);
     Sample.notFound "not found"] in
  let items := [1; 2]%nat in
  length responses = length items
  /\ fst (processBatchResponse responses items Sample.start)
     = resultOf (outcomesWith messageAmended responses items)
  /\ length (outcomesWith messageAmended responses items) = length items
  /\ forall i response item,
       nth_error responses i = Some response ->
       nth_error items i = Some item ->
       nth_error (outcomesWith messageAmended responses items) i
       = Some (outcomeWith messageAmended response item).
Proof.
  cbv zeta. split; [reflexivity|].
  apply (@processBatchResponse_classifies nat nat unit
           [Sample.ok (BatchRequest.Build "a" GET "/users/1" None None);
            Sample.notFound "not found"]
           [1; 2]%nat Sample.start).
  reflexivity.
Defined.

Lemma retry_rebuilds_requests_witness :
  let client := Sample.busy None in
  let options := Sample.options 20 3 1 in
  let first := mkRequests Sample.rt Sample.builder 0 [1; 2]%nat in
  let second := mkRequests Sample.rt Sample.builder (0 + 2) [1; 2]%nat in
  shouldRetry options (Sample.rateLimit None) 1 = true
  /\ (exists rest,
         posted (snd (processSingleBatchWithRetry Sample.rt client options
                        [1; 2]%nat Sample.builder 1 Sample.start))
         = [] ++ first :: second :: rest)
  /\ map (@BatchRequest.fields unit) second = map (@BatchRequest.fields unit) first
  /\ forall r r', In r first -> In r' second ->
                  BatchRequest.id r <> BatchRequest.id r'.
Proof.
  cbv zeta. split; [reflexivity|].
  apply (@retry_rebuilds_requests
           nat nat unit Sample.rt (Sample.busy None) (Sample.options 20 3 1)
           [1; 2]%nat Sample.builder 1 Sample.start (Sample.rateLimit None)).
  - exact counterUuid_inj.
  - reflexivity.
  - reflexivity.
Defined.

Lemma terminal_failure_is_data_witness :
  let options := Sample.options 20 3 1 in
  GraphError.statusCode Sample.serverError <> Some 429
  /\ processSingleBatchWithRetry Sample.rt Sample.broken options [1%nat]
       Sample.builder 1 Sample.start
     = (BatchResult.Build []
          [ {| Failure.request := Some 1%nat;
               Failure.error :=
                 "Batch request failed: Error: Internal Server Error" |} ],
        {| uuids := 1;
           posted := [mkRequests Sample.rt Sample.builder 0 [1%nat]];
           timers := [];
           logged := [BatchFailed
                        "Batch request failed: Error: Internal Server Error"] |}).
Proof.
  cbv zeta. split; [discriminate|].
  apply (@terminal_failure_is_data
           nat nat unit Sample.rt Sample.broken (Sample.options 20 3 1)
           [1%nat] Sample.builder 1 Sample.start Sample.serverError).
  - reflexivity.
  - left. discriminate.
Defined.

Lemma chunkArray_groups_witness :
  0 < 2
  /\ exists chunks,
       chunkArray [1; 2; 3; 4; 5]%nat 2 = Some chunks
       /\ Chunked (Z.to_nat 2) [1; 2; 3; 4; 5]%nat chunks
       /\ concat chunks = [1; 2; 3; 4; 5]%nat
       /\ Forall (fun c => 1 <= length c <= Z.to_nat 2)%nat chunks.
Proof.
  split; [reflexivity|].
  apply (@chunkArray_groups nat [1; 2; 3; 4; 5]%nat 2). reflexivity.
Defined.

Lemma processBatch_runs_groups_in_order_witness :
  let options := Sample.options 2 3 1 in
  chunkArray [1; 2; 3]%nat (Options.batchSize options) = Some [[1; 2]; [3]]%nat
  /\ newPQueue Sample.rt (Options.concurrency options)
               (Options.queueInterval options) = None
  /\ exists rs w1 traces,
       Sequential Sample.rt Sample.allOk options Sample.builder Sample.start
                  [[1; 2]; [3]]%nat rs w1
       /\ processBatch Sample.rt Sample.allOk options [1; 2; 3]%nat
                       Sample.builder Sample.start
          = Returns
              (BatchResult.Build
                 (concat (map (@BatchResult.successful nat nat) rs))
                 (concat (map (@BatchResult.failed nat nat) rs)),
               {| uuids := uuids w1; posted := posted w1; timers := timers w1;
                  logged :=
                    logged w1
                    ++ [Completed
                          (length (concat (map (@BatchResult.successful nat nat) rs)))
                          (length (concat (map (@BatchResult.failed nat nat) rs)))] |})
       /\ posted w1 = [] ++ concat traces
       /\ Forall2 (fun group trace =>
                     Forall (fun requests =>
                               map (@BatchRequest.fields unit) requests
                               = map Sample.builder group) trace)
                  [[1; 2]; [3]]%nat traces.
Proof.
  cbv zeta. split; [reflexivity|]. split; [reflexivity|].
  apply (@processBatch_runs_groups_in_order
           nat nat unit Sample.rt Sample.allOk (Sample.options 2 3 1)
           [1; 2; 3]%nat Sample.builder Sample.start [[1; 2]; [3]]%nat).
  - reflexivity.
  - reflexivity.
Defined.

(** ** Where the code and the specification part *)

(** C4 as worded fails for the hint "0": the hint is there and asks for
    zero seconds, the code takes it for no hint and sets the timer to the
    configured [retryDelay], here 7 seconds (7000 ms). *)
Lemma retry_delay_hint_zero :
  let graphError := Sample.rateLimit (Some "0"%string) in
  let options := Sample.options 20 2 7 in
  retryAfterHeader graphError = str "0"
  /\ 1000 * secondsAsClaimed Sample.rt options (retryAfterHeader graphError) = 0
  /\ retryAfter Sample.rt options graphError * 1000 = 7000
  /\ timers (snd (processSingleBatchWithRetry Sample.rt
                    (Sample.busy (Some "0"%string)) options [1%nat]
                    Sample.builder 1 Sample.start))
     = [7000]
  /\ retryAfter Sample.rt options graphError * 1000
     <> 1000 * secondsAsClaimed Sample.rt options (retryAfterHeader graphError).
Proof.
  cbv zeta. repeat split; try reflexivity. vm_compute. discriminate.
Qed.

(** C5 as worded fails for an embedded message that is there and empty:
    the failure carries the synthesized text, not the embedded one. *)
Lemma processBatchResponse_empty_message :
  let responses := [Sample.notFound ""] in
  let items := [1%nat] in
  length responses = length items
  /\ BatchResult.failed (fst (processBatchResponse responses items Sample.start))
     = [ {| Failure.request := Some 1%nat;
            Failure.error := "Unknown error (Status: 404)" |} ]
  /\ BatchResult.failed (resultOf (outcomesWith messageAsClaimed responses items))
     = [ {| Failure.request := Some 1%nat; Failure.error := "" |} ]
  /\ fst (processBatchResponse responses items Sample.start)
     <> resultOf (outcomesWith messageAsClaimed responses items).
Proof.
  cbv zeta. repeat split; try reflexivity. vm_compute. discriminate.
Qed.

(** C6 as worded fails whenever the lengths differ.  With no response
    for one item the result is empty and the item is in neither list, in
    [processBatchResponse] as in the run of the group around it; with one
    response for no item the result has an entry whose item is
    [undefined].  Neither is an error. *)
Lemma processBatchResponse_length_mismatch :
  reconcileAsClaimed (@nil (BatchResponse.t nat)) [1%nat] = None
  /\ fst (processBatchResponse (@nil (BatchResponse.t nat)) [1%nat] Sample.start)
     = BatchResult.Build [] []
  /\ fst (processSingleBatchWithRetry Sample.rt (Sample.fixed [])
            (Sample.options 20 3 1) [1%nat] Sample.builder 1 Sample.start)
     = BatchResult.Build [] []
  /\ reconcileAsClaimed [Sample.notFound "gone"] (@nil nat) = None
  /\ fst (processBatchResponse [Sample.notFound "gone"] (@nil nat) Sample.start)
     = BatchResult.Build []
         [ {| Failure.request := None; Failure.error := "gone" |} ].
Proof. repeat split; reflexivity. Qed.

(** C7 as worded fails on the first retry: the second call carries the
    item under a new identifier, so the two request lists differ. *)
Lemma retry_sends_new_identifiers :
  let out := processSingleBatchWithRetry Sample.rt (Sample.busy None)
               (Sample.options 20 2 1) [1%nat] Sample.builder 1 Sample.start in
  posted (snd out)
  = [ [BatchRequest.Build "uuid-0" GET "/users/1" (@None unit) None];
      [BatchRequest.Build "uuid-1" GET "/users/1" (@None unit) None] ]
  /\ nth_error (posted (snd out)) 0 <> nth_error (posted (snd out)) 1.
Proof.
  cbv zeta. split; [reflexivity|]. vm_compute. discriminate.
Qed.

(** C9 as worded fails for every size that is not positive.  With no
    items [chunkArray] and [processBatch] return as usual; with an item
    the loop of [chunkArray] never ends, whatever the fuel, and
    [processBatch] never comes back.  No error is raised in either case. *)
Lemma chunkArray_size_not_positive :
  chunkArray (@nil nat) 0 = Some []
  /\ processBatch Sample.rt Sample.allOk (Sample.options 0 3 1) [] Sample.builder
       Sample.start
     = Returns (BatchResult.Build [] [],
                {| uuids := 0; posted := []; timers := [];
                   logged := [Completed 0 0] |})
  /\ (forall fuel, chunkLoop fuel [1%nat] 0 0 [] = None)
  /\ (forall fuel, chunkLoop fuel [1%nat] (-1) 0 [] = None)
  /\ processBatch Sample.rt Sample.allOk (Sample.options 0 3 1) [1%nat]
       Sample.builder Sample.start
     = Diverges.
Proof.
  repeat split; try reflexivity;
    intros fuel; apply chunkLoop_diverges; simpl; lia.
Qed.

(** ** The further properties at concrete inputs *)

Lemma firstOnly_one_per_request : OnePerRequest Sample.firstOnly.
Proof.
  intros history [|request others] responses H; simpl in H; inversion H;
    simpl; now rewrite ?length_map.
Qed.

Lemma chunkArray_count_witness :
  0 < 20
  /\ exists chunks,
       chunkArray (seq 1 45) 20 = Some chunks
       /\ Z.of_nat (length chunks) = (Z.of_nat (length (seq 1 45)) + 20 - 1) / 20.
Proof.
  split; [reflexivity|].
  apply (@chunkArray_count nat (seq 1 45) 20). reflexivity.
Defined.

Lemma processBatch_nonpositive_size_witness :
  let options := Sample.options 0 3 1 in
  Options.batchSize options <= 0
  /\ [1%nat] <> []
  /\ processBatch Sample.rt Sample.allOk options [1%nat] Sample.builder Sample.start
     = Diverges
  /\ forall fuel, chunkLoop fuel [1%nat] (Options.batchSize options) 0 [] = None.
Proof.
  cbv zeta. split; [simpl; lia|]. split; [discriminate|].
  apply (@processBatch_nonpositive_size
           nat nat unit Sample.rt Sample.allOk (Sample.options 0 3 1)
           [1%nat] Sample.builder Sample.start).
  - simpl. lia.
  - discriminate.
Defined.

Lemma processBatch_request_sizes_witness :
  exists r w',
    processBatch Sample.rt (Sample.busy None) (Sample.options 2 2 1)
                 [1; 2; 3]%nat Sample.builder Sample.start
    = Returns (r, w')
    /\ exists trace,
         posted w' = posted Sample.start ++ trace
         /\ Forall (fun batchRequests =>
                      1 <= length batchRequests <= Z.to_nat 2)%nat trace.
Proof.
  destruct (processBatch Sample.rt (Sample.busy None) (Sample.options 2 2 1)
                         [1; 2; 3]%nat Sample.builder Sample.start)
    as [[r w'] | e | ] eqn:E; [| vm_compute in E; discriminate ..].
  exists r, w'. split; [reflexivity|].
  apply (@processBatch_request_sizes
           nat nat unit Sample.rt (Sample.busy None) (Sample.options 2 2 1)
           [1; 2; 3]%nat Sample.builder Sample.start r w').
  exact E.
Defined.

Lemma processBatch_call_bounds_witness :
  exists r w',
    0 < Options.batchSize (Sample.options 2 3 1)
    /\ processBatch Sample.rt (Sample.busyOnce "1") (Sample.options 2 3 1)
                    [1; 2; 3]%nat Sample.builder Sample.start
       = Returns (r, w')
    /\ exists calls,
         Z.of_nat (length (posted w')) = 0 + calls
         /\ Z.of_nat (length (timers w')) = 0 + calls - (3 + 2 - 1) / 2
         /\ (3 + 2 - 1) / 2 <= calls <= (3 + 2 - 1) / 2 * Z.max 1 3.
Proof.
  destruct (processBatch Sample.rt (Sample.busyOnce "1") (Sample.options 2 3 1)
                         [1; 2; 3]%nat Sample.builder Sample.start)
    as [[r w'] | e | ] eqn:E; [| vm_compute in E; discriminate ..].
  exists r, w'. split; [reflexivity|]. split; [reflexivity|].
  apply (@processBatch_call_bounds
           nat nat unit Sample.rt (Sample.busyOnce "1") (Sample.options 2 3 1)
           [1; 2; 3]%nat Sample.builder Sample.start r w').
  - reflexivity.
  - exact E.
Defined.



Lemma processBatch_fresh_ids_witness :
  exists r w',
    processBatch Sample.rt (Sample.busyOnce "1") (Sample.options 2 3 1)
                 [1; 2; 3]%nat Sample.builder Sample.start
    = Returns (r, w')
    /\ NoDup (map (@BatchRequest.id unit) (concat (posted w'))).
Proof.
  destruct (processBatch Sample.rt (Sample.busyOnce "1") (Sample.options 2 3 1)
                         [1; 2; 3]%nat Sample.builder Sample.start)
    as [[r w'] | e | ] eqn:E; [| vm_compute in E; discriminate ..].
  exists r, w'. split; [reflexivity|].
  apply (@processBatch_fresh_ids
           nat nat unit Sample.rt (Sample.busyOnce "1") (Sample.options 2 3 1)
           [1; 2; 3]%nat Sample.builder Sample.start r w').
  - exact counterUuid_inj.
  - reflexivity.
  - exact E.
Defined.

Lemma processBatch_stable_partition_witness :
  exists r w',
    processBatch Sample.rt Sample.firstOnly (Sample.options 2 3 1)
                 [1; 2; 3]%nat Sample.builder Sample.start
    = Returns (r, w')
    /\ exists mask,
         length mask = 3%nat
         /\ map (@Success.request nat nat) (BatchResult.successful r)
            = map Some (select mask [1; 2; 3]%nat)
         /\ map (@Failure.request nat) (BatchResult.failed r)
            = map Some (select (map negb mask) [1; 2; 3]%nat).
Proof.
  destruct (processBatch Sample.rt Sample.firstOnly (Sample.options 2 3 1)
                         [1; 2; 3]%nat Sample.builder Sample.start)
    as [[r w'] | e | ] eqn:E; [| vm_compute in E; discriminate ..].
  exists r, w'. split; [reflexivity|].
  apply (@processBatch_stable_partition
           nat nat unit Sample.rt Sample.firstOnly (Sample.options 2 3 1)
           [1; 2; 3]%nat Sample.builder Sample.start r w').
  - exact firstOnly_one_per_request.
  - exact E.
Defined.

(** The two lists of the last run: the first item of each group
    succeeded, the second item of the first group failed. *)
Example first_of_each_group :
  match processBatch Sample.rt Sample.firstOnly (Sample.options 2 3 1)
                     [1; 2; 3]%nat Sample.builder Sample.start with
  | Returns (r, _) =>
      map (@Success.request nat nat) (BatchResult.successful r)
      = [Some 1; Some 3]%nat
      /\ BatchResult.failed r
         = [ {| Failure.request := Some 2%nat; Failure.error := "gone" |} ]
  | _ => False
  end.
Proof. vm_compute. auto. Qed.
